(** * Partition bookkeeping of the stochastic block partitioner

    A shallow embedding of [partition.cpp] (class [Partition]) and the
    properties of its specification, checked against the code.

    - [int] is a 32-bit two's-complement integer: a [Z] whose arithmetic is
      wrapped by [wrap].
    - [Vector] is Eigen's dynamic [int] column vector, a [list Z]; its
      [operator[]] asserts [0 <= index < size()], modelled as the fault
      [OutOfBounds].
    - [Matrix2Column] is a dynamic matrix of two [int] columns
      (neighbor, weight), a list of rows.
    - [Eigen::VectorXd] is a list of binary64 floats. The [float] members
      of a partition are only stored and copied; they are binary64 floats
      too, which hold every binary32 value.
    - A member function is a function of the object's value [this] that
      returns the updated value, or a fault. *)

From Stdlib Require Import ZArith Lia PrimFloat.
From stdpp Require Import base numbers list gmap strings.

Local Open Scope Z_scope.

(** ** Machine integers *)

Definition wrap (z : Z) : Z := (z + 2 ^ 31) mod 2 ^ 32 - 2 ^ 31.

Definition int_add (a b : Z) : Z := wrap (a + b).
Definition int_sub (a b : Z) : Z := wrap (a - b).

Definition in_int_range (z : Z) : Prop := - 2 ^ 31 <= z < 2 ^ 31.

(** ** Faults

    What Eigen's debug assertions stop on; without them the same steps are
    undefined behaviour. [OutOfFuel] is the one constructor that is not a
    behaviour of the program: it bounds the recursion of [merge_loop]. *)

Inductive fault : Type :=
  | OutOfBounds (vector : string) (index : Z) (size : nat)
  | NegativeSize (size : Z)
  | SizeMismatch (lhs rhs : nat)
  | EmptyReduction
  | IndeterminateRead (vector : string) (index : nat)
  | OutOfFuel.

Inductive result (A : Type) : Type :=
  | Ok (a : A)
  | Err (e : fault).

Arguments Ok {A} a.
Arguments Err {A} e.

#[global] Instance result_ret : MRet result := @Ok.
#[global] Instance result_bind : MBind result :=
  fun A B f m => match m with Ok a => f a | Err e => Err e end.

(** [for (uint i = first; i < first + count; ++i) body] over a state. *)
Fixpoint for_range {St : Type} (body : nat -> St -> result St)
    (first count : nat) (s : St) : result St :=
  match count with
  | O => Ok s
  | S count' => s' ← body first s; for_range body (S first) count' s'
  end.

(** [for (uint i = 0; i < xs.size(); ++i) { x = xs[i]; body }] where the
    loop does not change [xs]. *)
Fixpoint for_each {A St : Type} (body : nat -> A -> St -> result St)
    (i : nat) (xs : list A) (s : St) : result St :=
  match xs with
  | [] => Ok s
  | x :: xs' => s' ← body i x s; for_each body (S i) xs' s'
  end.

(** ** Eigen vectors *)

Abbreviation Vector := (list Z) (only parsing).
Abbreviation Matrix2Column := (list (Z * Z)) (only parsing).

(** [v[index]] as an rvalue. *)
Definition vec_get (name : string) (v : Vector) (index : Z) : result Z :=
  if bool_decide (0 <= index) then
    match v !! Z.to_nat index with
    | Some x => Ok x
    | None => Err (OutOfBounds name index (length v))
    end
  else Err (OutOfBounds name index (length v)).

(** [v[index] = x]. *)
Definition vec_set (name : string) (v : Vector) (index x : Z) : result Vector :=
  if bool_decide (0 <= index < Z.of_nat (length v)) then
    Ok (<[Z.to_nat index := x]> v)
  else Err (OutOfBounds name index (length v)).

(** [Vector::Constant(size, value)] and [Vector::Zero(size)]. *)
Definition Constant (size value : Z) : result Vector :=
  if bool_decide (0 <= size) then Ok (replicate (Z.to_nat size) value)
  else Err (NegativeSize size).

Definition Zero (size : Z) : result Vector := Constant size 0.

(** [a + b] assigned to a vector: coefficient-wise, sizes must agree. *)
Definition vec_add (a b : Vector) : result Vector :=
  if bool_decide (length a = length b) then Ok (zip_with int_add a b)
  else Err (SizeMismatch (length a) (length b)).

(** [Vector::LinSpaced(size, low, high)] for an integer scalar, as Eigen's
    [linspaced_op] computes it: the first argument is the number of
    coefficients, and a request for one coefficient yields [high]. *)
Definition LinSpaced (size : nat) (low high : Z) : Vector :=
  let num_steps := Z.of_nat size in
  let m_low := if bool_decide (num_steps = 1) then high else low in
  let span := high - m_low in
  let m_multiplier :=
    Z.quot span (if bool_decide (num_steps <= 1) then 1 else num_steps - 1) in
  let m_divisor :=
    Z.quot ((if bool_decide (m_low <= high) then num_steps else - num_steps) + span)
           (if bool_decide (Z.abs span + 1 = 0) then 1 else Z.abs span + 1) in
  let m_use_divisor :=
    bool_decide (1 < num_steps) && bool_decide (Z.abs span + 1 < num_steps) in
  (fun i : nat =>
     if m_use_divisor then wrap (m_low + Z.quot (Z.of_nat i) m_divisor)
     else wrap (m_low + Z.of_nat i * m_multiplier)) <$> seq 0 size.

(** ** The block aggregate matrix *)

(** Modelled from the spec: [BoostMappedMatrix] is declared outside the
    sources; section 2 of the specification gives it as a square matrix
    indexed by block id with a point increment, a point read and a deep
    copy. Cells hold [int]s and an absent cell reads as zero. *)
Record BoostMappedMatrix : Type := {
  nrows : Z;
  ncols : Z;
  cells : gmap (Z * Z) Z
}.

Definition BoostMappedMatrix_new (rows cols : Z) : BoostMappedMatrix :=
  {| nrows := rows; ncols := cols; cells := ∅ |}.

Definition matrix_get (m : BoostMappedMatrix) (row col : Z) : Z :=
  default 0 (cells m !! (row, col)).

Definition matrix_add (m : BoostMappedMatrix) (row col val : Z) : BoostMappedMatrix :=
  {| nrows := nrows m; ncols := ncols m;
     cells := <[(row, col) := int_add (matrix_get m row col) val]> (cells m) |}.

Definition matrix_copy (m : BoostMappedMatrix) : BoostMappedMatrix :=
  {| nrows := nrows m; ncols := ncols m; cells := cells m |}.

(** Sum of the cells of one row, resp. one column, as an [int]. *)
Definition row_sum (m : BoostMappedMatrix) (row : Z) : Z :=
  foldr (fun col acc => int_add (matrix_get m row col) acc) 0 (seqZ 0 (ncols m)).

Definition col_sum (m : BoostMappedMatrix) (col : Z) : Z :=
  foldr (fun row acc => int_add (matrix_get m row col) acc) 0 (seqZ 0 (nrows m)).

(** ** The partition *)

Record Partition : Type := {
  num_blocks : Z;
  block_assignment : Vector;
  blockmodel : BoostMappedMatrix;
  block_degrees_out : Vector;
  block_degrees_in : Vector;
  block_degrees : Vector;
  block_reduction_rate : float;
  overall_entropy : float;
  num_blocks_to_merge : Z
}.

Definition set_num_blocks (x : Z) (p : Partition) : Partition :=
  {| num_blocks := x; block_assignment := block_assignment p;
     blockmodel := blockmodel p; block_degrees_out := block_degrees_out p;
     block_degrees_in := block_degrees_in p; block_degrees := block_degrees p;
     block_reduction_rate := block_reduction_rate p;
     overall_entropy := overall_entropy p;
     num_blocks_to_merge := num_blocks_to_merge p |}.

Definition set_block_assignment (x : Vector) (p : Partition) : Partition :=
  {| num_blocks := num_blocks p; block_assignment := x;
     blockmodel := blockmodel p; block_degrees_out := block_degrees_out p;
     block_degrees_in := block_degrees_in p; block_degrees := block_degrees p;
     block_reduction_rate := block_reduction_rate p;
     overall_entropy := overall_entropy p;
     num_blocks_to_merge := num_blocks_to_merge p |}.

Definition set_blockmodel (x : BoostMappedMatrix) (p : Partition) : Partition :=
  {| num_blocks := num_blocks p; block_assignment := block_assignment p;
     blockmodel := x; block_degrees_out := block_degrees_out p;
     block_degrees_in := block_degrees_in p; block_degrees := block_degrees p;
     block_reduction_rate := block_reduction_rate p;
     overall_entropy := overall_entropy p;
     num_blocks_to_merge := num_blocks_to_merge p |}.

Definition set_block_degrees_out (x : Vector) (p : Partition) : Partition :=
  {| num_blocks := num_blocks p; block_assignment := block_assignment p;
     blockmodel := blockmodel p; block_degrees_out := x;
     block_degrees_in := block_degrees_in p; block_degrees := block_degrees p;
     block_reduction_rate := block_reduction_rate p;
     overall_entropy := overall_entropy p;
     num_blocks_to_merge := num_blocks_to_merge p |}.

Definition set_block_degrees_in (x : Vector) (p : Partition) : Partition :=
  {| num_blocks := num_blocks p; block_assignment := block_assignment p;
     blockmodel := blockmodel p; block_degrees_out := block_degrees_out p;
     block_degrees_in := x; block_degrees := block_degrees p;
     block_reduction_rate := block_reduction_rate p;
     overall_entropy := overall_entropy p;
     num_blocks_to_merge := num_blocks_to_merge p |}.

Definition set_block_degrees (x : Vector) (p : Partition) : Partition :=
  {| num_blocks := num_blocks p; block_assignment := block_assignment p;
     blockmodel := blockmodel p; block_degrees_out := block_degrees_out p;
     block_degrees_in := block_degrees_in p; block_degrees := x;
     block_reduction_rate := block_reduction_rate p;
     overall_entropy := overall_entropy p;
     num_blocks_to_merge := num_blocks_to_merge p |}.

(** ** [Partition::initialize_edge_counts] *)

(** One pass of the inner loop: the edge [vertex -> neighbor] of weight
    [weight]. *)
Definition count_edge (vertex : nat) (edge : Z * Z) (this : Partition) : result Partition :=
  block ← vec_get "block_assignment" (block_assignment this) (Z.of_nat vertex);
  let neighbor := edge.1 in
  neighbor_block ← vec_get "block_assignment" (block_assignment this) neighbor;
  let weight := edge.2 in
  let this := set_blockmodel (matrix_add (blockmodel this) block neighbor_block weight) this in
  out_old ← vec_get "block_degrees_out" (block_degrees_out this) block;
  out_new ← vec_set "block_degrees_out" (block_degrees_out this) block (int_add out_old weight);
  let this := set_block_degrees_out out_new this in
  in_old ← vec_get "block_degrees_in" (block_degrees_in this) neighbor;
  in_new ← vec_set "block_degrees_in" (block_degrees_in this) neighbor (int_add in_old weight);
  Ok (set_block_degrees_in in_new this).

Definition count_vertex (vertex : nat) (vertex_neighbors : Matrix2Column)
    (this : Partition) : result Partition :=
  for_each (fun _ edge this => count_edge vertex edge this) 0 vertex_neighbors this.

Definition initialize_edge_counts (neighbors : list Matrix2Column)
    (this : Partition) : result Partition :=
  let this :=
    set_blockmodel (BoostMappedMatrix_new (num_blocks this) (num_blocks this)) this in
  this ← for_each count_vertex 0 neighbors this;
  degrees ← vec_add (block_degrees_out this) (block_degrees_in this);
  Ok (set_block_degrees degrees this).


(** ** [Partition::merge_blocks] *)

(** The body of the relabelling loops: [if (v[index] == from) v[index] = to]. *)
Definition relabel (from_block to_block : Z) (v : Vector) (index : nat) : Vector :=
  match v !! index with
  | Some block => if bool_decide (block = from_block) then <[index := to_block]> v else v
  | None => v
  end.

(** [for (uint index = 0; index < v.size(); ++index) relabel]. *)
Definition relabel_all (from_block to_block : Z) (v : Vector) : Vector :=
  foldl (relabel from_block to_block) v (seq 0 (length v)).

Definition merge_blocks (from_block to_block : Z) (this : Partition) : Partition :=
  set_block_assignment (relabel_all from_block to_block (block_assignment this)) this.

(** ** [sort_indices] *)

(** [unsorted[index]] on the vector of scores. *)
Definition score_get (unsorted : list float) (index : Z) : result float :=
  if bool_decide (0 <= index) then
    match unsorted !! Z.to_nat index with
    | Some x => Ok x
    | None => Err (OutOfBounds "unsorted" index (length unsorted))
    end
  else Err (OutOfBounds "unsorted" index (length unsorted)).

(** The comparator [unsorted[i1] > unsorted[i2]]. *)
Definition score_greater (unsorted : list float) (i1 i2 : Z) : result bool :=
  a ← score_get unsorted i1;
  b ← score_get unsorted i2;
  Ok (PrimFloat.ltb b a).

(** [std::sort] with a comparator, as insertion sort. The standard leaves
    the order of equivalent elements open; on a range of one element, the
    only ranges this program sorts, no comparison is made. *)
Fixpoint insert_by (before : Z -> Z -> result bool) (x : Z) (sorted : list Z)
    : result (list Z) :=
  match sorted with
  | [] => Ok [x]
  | y :: rest =>
      b ← before x y;
      if b : bool then Ok (x :: y :: rest)
      else rest' ← insert_by before x rest; Ok (y :: rest')
  end.

Fixpoint std_sort (before : Z -> Z -> result bool) (range : list Z) : result (list Z) :=
  match range with
  | [] => Ok []
  | x :: rest => sorted ← std_sort before rest; insert_by before x sorted
  end.

Definition sort_indices (unsorted : list float) : result Vector :=
  let indices := LinSpaced 1 0 (wrap (Z.of_nat (length unsorted) - 1)) in
  std_sort (score_greater unsorted) indices.

(** ** [Partition::carry_out_best_merges] *)

(** The variables of the merge loop. *)
Record merge_state : Type := {
  num_merged : Z;
  counter : Z;
  block_map : Vector;
  merged : Partition
}.

(** One pass of the body of [while (num_merged < num_blocks_to_merge)]. *)
Definition merge_step (best_merges best_merge_for_each_block : Vector)
    (s : merge_state) : result merge_state :=
  merge_from ← vec_get "best_merges" best_merges (counter s);
  target ← vec_get "best_merge_for_each_block" best_merge_for_each_block merge_from;
  merge_to ← vec_get "block_map" (block_map s) target;
  let counter' := int_add (counter s) 1 in
  if bool_decide (merge_to = merge_from) then
    Ok {| num_merged := num_merged s; counter := counter';
          block_map := block_map s; merged := merged s |}
  else
    Ok {| num_merged := int_add (num_merged s) 1; counter := counter';
          block_map := relabel_all merge_from merge_to (block_map s);
          merged := merge_blocks merge_from merge_to (merged s) |}.

(** The loop. Every pass that does not fault has read one more candidate,
    so [fuel = best_merges.size()] passes are enough ([merge_loop_fuel]). *)
Fixpoint merge_loop (fuel : nat) (best_merges best_merge_for_each_block : Vector)
    (s : merge_state) : result merge_state :=
  if bool_decide (num_merged s < num_blocks_to_merge (merged s)) then
    s' ← merge_step best_merges best_merge_for_each_block s;
    match fuel with
    | O => Err OutOfFuel
    | S fuel' => merge_loop fuel' best_merges best_merge_for_each_block s'
    end
  else Ok s.

(** [std::unique] on the whole vector: the kept coefficients, one per run of
    equal neighbours. *)
Fixpoint std_unique (v : list Z) : list Z :=
  match v with
  | [] => []
  | x :: rest =>
      match rest with
      | [] => [x]
      | y :: _ => if bool_decide (x = y) then std_unique rest else x :: std_unique rest
      end
  end.

(** [v.resize(size)]: Eigen keeps the coefficients only when the size does
    not change; otherwise the storage is reallocated and the coefficients are
    indeterminate ([None]). *)
Definition resize (v : Vector) (size : nat) : list (option Z) :=
  if bool_decide (size = length v) then Some <$> v else replicate size None.

(** [mapping[remaining_blocks[i]] = counter; counter++]. *)
Definition number_remaining (i : nat) (remaining : option Z) (s : Vector * Z)
    : result (Vector * Z) :=
  match remaining with
  | None => Err (IndeterminateRead "remaining_blocks" i)
  | Some rem_block =>
      mapping ← vec_set "mapping" s.1 rem_block s.2;
      Ok (mapping, int_add s.2 1)
  end.

(** [block = block_assignment[i]; block_assignment[block] = mapping[block]]. *)
Definition rewrite_assignment (mapping : Vector) (i : nat) (block_assignment : Vector)
    : result Vector :=
  block ← vec_get "block_assignment" block_assignment (Z.of_nat i);
  new_block ← vec_get "mapping" mapping block;
  vec_set "block_assignment" block_assignment block new_block.

(** Lines 134-151: the renumbering of the blocks that remain. *)
Definition compact_blocks (this : Partition) : result Partition :=
  let remaining_blocks := block_assignment this in
  let kept := std_unique remaining_blocks in
  let remaining_blocks :=
    resize (kept ++ drop (length kept) remaining_blocks) (length kept) in
  mapping ← Constant (num_blocks this) (-1);
  numbered ← for_each number_remaining 0 remaining_blocks (mapping, 0);
  assignment ← for_range (rewrite_assignment numbered.1) 0
                 (length (block_assignment this)) (block_assignment this);
  Ok (set_num_blocks (int_sub (num_blocks this) (num_blocks_to_merge this))
        (set_block_assignment assignment this)).

Definition merge_start (this : Partition) : merge_state :=
  {| num_merged := 0; counter := 0;
     block_map := LinSpaced 1 0 (wrap (num_blocks this - 1));
     merged := this |}.

Definition carry_out_best_merges (delta_entropy_for_each_block : list float)
    (best_merge_for_each_block : Vector) (this : Partition) : result Partition :=
  best_merges ← sort_indices delta_entropy_for_each_block;
  s ← merge_loop (length best_merges) best_merges best_merge_for_each_block
        (merge_start this);
  compact_blocks (merged s).

(** ** Construction *)

Section Constructors.

(** The constructor [Partition(num_blocks, neighbors, block_reduction_rate,
    block_assignment)] is declared in [partition.hpp], outside the sources:
    it is a parameter of the functions that delegate to it. *)
Variable Partition4 : Z -> list Matrix2Column -> float -> Vector -> result Partition.

(** [uniques[true_block_membership[i]] = 1]. *)
Definition mark_used (i : nat) (membership : Z) (uniques : Vector) : result Vector :=
  vec_set "uniques" uniques membership 1.

(** [if (uniques[block] == 1) num_blocks++]. *)
Definition count_used (block : nat) (used : Z) (num_blocks : Z) : result Z :=
  if bool_decide (used = 1) then Ok (int_add num_blocks 1) else Ok num_blocks.

Definition clone_with_true_block_membership (neighbors : list Matrix2Column)
    (true_block_membership : Vector) (this : Partition) : result Partition :=
  uniques ← Zero (Z.of_nat (length true_block_membership));
  uniques ← for_each mark_used 0 true_block_membership uniques;
  num_blocks ← for_each count_used 0 uniques 0;
  Partition4 num_blocks neighbors (block_reduction_rate this) true_block_membership.

(** [block_assignment[item.first] = sample_block_membership[item.second]];
    the [std::map] is the list of its items in key order. *)
Definition assign_sampled (sample_block_membership : Vector) (i : nat) (item : Z * Z)
    (block_assignment : Vector) : result Vector :=
  block ← vec_get "sample_block_membership" sample_block_membership item.2;
  vec_set "block_assignment" block_assignment item.1 block.

(** Second loop: an unassigned vertex gets the next block number. *)
Definition assign_fresh (vertex : nat) (s : Vector * Z) : result (Vector * Z) :=
  block ← vec_get "block_assignment" s.1 (Z.of_nat vertex);
  if bool_decide (0 <= block) then Ok s
  else
    assignment ← vec_set "block_assignment" s.1 (Z.of_nat vertex) s.2;
    Ok (assignment, int_add s.2 1).

(** [if (neighbor_block < num_blocks) block_counts[neighbor_block]++]. *)
Definition tally_neighbor (num_blocks : Z) (block_assignment : Vector) (i : nat)
    (edge : Z * Z) (block_counts : Vector) : result Vector :=
  let neighbor := edge.1 in
  neighbor_block ← vec_get "block_assignment" block_assignment neighbor;
  if bool_decide (neighbor_block < num_blocks) then
    count ← vec_get "block_counts" block_counts neighbor_block;
    vec_set "block_counts" block_counts neighbor_block (int_add count 1)
  else Ok block_counts.

(** [v.maxCoeff(&index)]: the index of the first largest coefficient. *)
Fixpoint first_max (best_index best i : Z) (v : list Z) : Z :=
  match v with
  | [] => best_index
  | x :: rest =>
      if bool_decide (best < x) then first_max i x (i + 1) rest
      else first_max best_index best (i + 1) rest
  end.

Definition maxCoeff (v : Vector) : result Z :=
  match v with
  | [] => Err EmptyReduction
  | x :: rest => Ok (first_max 0 x 1 rest)
  end.

(** Third loop: a vertex with a temporary block moves to the block most of
    its neighbours are in. *)
Definition assign_most_connected (num_blocks : Z) (vertex : nat)
    (vertex_neighbors : Matrix2Column) (block_assignment : Vector) : result Vector :=
  block ← vec_get "block_assignment" block_assignment (Z.of_nat vertex);
  if bool_decide (block < num_blocks) then Ok block_assignment
  else
    block_counts ← Zero num_blocks;
    block_counts ← for_each (tally_neighbor num_blocks block_assignment) 0
                     vertex_neighbors block_counts;
    new_block ← maxCoeff block_counts;
    vec_set "block_assignment" block_assignment (Z.of_nat vertex) new_block.

Definition from_sample (num_blocks : Z) (neighbors : list Matrix2Column)
    (sample_block_membership : Vector) (mapping : list (Z * Z))
    (block_reduction_rate : float) : result Partition :=
  block_assignment ← Constant num_blocks (-1);
  block_assignment ← for_each (assign_sampled sample_block_membership) 0 mapping
                       block_assignment;
  fresh ← for_range assign_fresh 0 (length neighbors) (block_assignment, num_blocks);
  block_assignment ← for_each (assign_most_connected num_blocks) 0 neighbors fresh.1;
  Partition4 num_blocks neighbors block_reduction_rate block_assignment.

End Constructors.

(** ** Storage of a partition, and [Partition::copy]

    An Eigen vector owns a heap buffer, and so does the map of a
    [BoostMappedMatrix]: a [Partition] object holds its scalars and the
    addresses of the buffers of its five containers. Two objects share
    mutable state when an address of one is an address of the other. *)

Inductive buffer : Type :=
  | IntBuffer (coefficients : Vector)
  | MapBuffer (matrix : BoostMappedMatrix).

Record PartitionObject : Type := {
  obj_num_blocks : Z;
  obj_block_assignment : nat;
  obj_blockmodel : nat;
  obj_block_degrees_out : nat;
  obj_block_degrees_in : nat;
  obj_block_degrees : nat;
  obj_block_reduction_rate : float;
  obj_overall_entropy : float;
  obj_num_blocks_to_merge : Z
}.

Definition set_obj_block_assignment (a : nat) (o : PartitionObject) : PartitionObject :=
  {| obj_num_blocks := obj_num_blocks o; obj_block_assignment := a;
     obj_blockmodel := obj_blockmodel o;
     obj_block_degrees_out := obj_block_degrees_out o;
     obj_block_degrees_in := obj_block_degrees_in o;
     obj_block_degrees := obj_block_degrees o;
     obj_block_reduction_rate := obj_block_reduction_rate o;
     obj_overall_entropy := obj_overall_entropy o;
     obj_num_blocks_to_merge := obj_num_blocks_to_merge o |}.

Definition set_obj_blockmodel (a : nat) (o : PartitionObject) : PartitionObject :=
  {| obj_num_blocks := obj_num_blocks o;
     obj_block_assignment := obj_block_assignment o; obj_blockmodel := a;
     obj_block_degrees_out := obj_block_degrees_out o;
     obj_block_degrees_in := obj_block_degrees_in o;
     obj_block_degrees := obj_block_degrees o;
     obj_block_reduction_rate := obj_block_reduction_rate o;
     obj_overall_entropy := obj_overall_entropy o;
     obj_num_blocks_to_merge := obj_num_blocks_to_merge o |}.

Definition set_obj_block_degrees_out (a : nat) (o : PartitionObject) : PartitionObject :=
  {| obj_num_blocks := obj_num_blocks o;
     obj_block_assignment := obj_block_assignment o;
     obj_blockmodel := obj_blockmodel o; obj_block_degrees_out := a;
     obj_block_degrees_in := obj_block_degrees_in o;
     obj_block_degrees := obj_block_degrees o;
     obj_block_reduction_rate := obj_block_reduction_rate o;
     obj_overall_entropy := obj_overall_entropy o;
     obj_num_blocks_to_merge := obj_num_blocks_to_merge o |}.

Definition set_obj_block_degrees_in (a : nat) (o : PartitionObject) : PartitionObject :=
  {| obj_num_blocks := obj_num_blocks o;
     obj_block_assignment := obj_block_assignment o;
     obj_blockmodel := obj_blockmodel o;
     obj_block_degrees_out := obj_block_degrees_out o; obj_block_degrees_in := a;
     obj_block_degrees := obj_block_degrees o;
     obj_block_reduction_rate := obj_block_reduction_rate o;
     obj_overall_entropy := obj_overall_entropy o;
     obj_num_blocks_to_merge := obj_num_blocks_to_merge o |}.

Definition set_obj_block_degrees (a : nat) (o : PartitionObject) : PartitionObject :=
  {| obj_num_blocks := obj_num_blocks o;
     obj_block_assignment := obj_block_assignment o;
     obj_blockmodel := obj_blockmodel o;
     obj_block_degrees_out := obj_block_degrees_out o;
     obj_block_degrees_in := obj_block_degrees_in o; obj_block_degrees := a;
     obj_block_reduction_rate := obj_block_reduction_rate o;
     obj_overall_entropy := obj_overall_entropy o;
     obj_num_blocks_to_merge := obj_num_blocks_to_merge o |}.

Definition set_obj_overall_entropy (x : float) (o : PartitionObject) : PartitionObject :=
  {| obj_num_blocks := obj_num_blocks o;
     obj_block_assignment := obj_block_assignment o;
     obj_blockmodel := obj_blockmodel o;
     obj_block_degrees_out := obj_block_degrees_out o;
     obj_block_degrees_in := obj_block_degrees_in o;
     obj_block_degrees := obj_block_degrees o;
     obj_block_reduction_rate := obj_block_reduction_rate o;
     obj_overall_entropy := x;
     obj_num_blocks_to_merge := obj_num_blocks_to_merge o |}.

Definition set_obj_num_blocks_to_merge (x : Z) (o : PartitionObject) : PartitionObject :=
  {| obj_num_blocks := obj_num_blocks o;
     obj_block_assignment := obj_block_assignment o;
     obj_blockmodel := obj_blockmodel o;
     obj_block_degrees_out := obj_block_degrees_out o;
     obj_block_degrees_in := obj_block_degrees_in o;
     obj_block_degrees := obj_block_degrees o;
     obj_block_reduction_rate := obj_block_reduction_rate o;
     obj_overall_entropy := obj_overall_entropy o;
     obj_num_blocks_to_merge := x |}.

(** The addresses an object reaches. *)
Definition footprint (o : PartitionObject) : list nat :=
  [obj_block_assignment o; obj_blockmodel o; obj_block_degrees_out o;
   obj_block_degrees_in o; obj_block_degrees o].

Definition read_vector (h : gmap nat buffer) (a : nat) : option Vector :=
  match h !! a with
  | Some (IntBuffer v) => Some v
  | _ => None
  end.

Definition read_matrix (h : gmap nat buffer) (a : nat) : option BoostMappedMatrix :=
  match h !! a with
  | Some (MapBuffer m) => Some m
  | _ => None
  end.

(** The value an object has in a heap: every container read through its
    address. *)
Definition value_of (h : gmap nat buffer) (o : PartitionObject) : option Partition :=
  assignment ← read_vector h (obj_block_assignment o);
  model ← read_matrix h (obj_blockmodel o);
  degrees_out ← read_vector h (obj_block_degrees_out o);
  degrees_in ← read_vector h (obj_block_degrees_in o);
  degrees ← read_vector h (obj_block_degrees o);
  Some {| num_blocks := obj_num_blocks o; block_assignment := assignment;
          blockmodel := model; block_degrees_out := degrees_out;
          block_degrees_in := degrees_in; block_degrees := degrees;
          block_reduction_rate := obj_block_reduction_rate o;
          overall_entropy := obj_overall_entropy o;
          num_blocks_to_merge := obj_num_blocks_to_merge o |}.

(** A new buffer, at an address that is not in use. *)
Definition allocate (h : gmap nat buffer) (b : buffer) : nat * gmap nat buffer :=
  let a := fresh (dom h) in (a, <[a := b]> h).

(** The buffer of a container that goes out of use. *)
Definition release (a : nat) (h : gmap nat buffer) : gmap nat buffer := delete a h.

(** A new object holding the value [p]. *)
Definition construct (h : gmap nat buffer) (p : Partition)
    : PartitionObject * gmap nat buffer :=
  let '(assignment, h) := allocate h (IntBuffer (block_assignment p)) in
  let '(model, h) := allocate h (MapBuffer (blockmodel p)) in
  let '(degrees_out, h) := allocate h (IntBuffer (block_degrees_out p)) in
  let '(degrees_in, h) := allocate h (IntBuffer (block_degrees_in p)) in
  let '(degrees, h) := allocate h (IntBuffer (block_degrees p)) in
  ({| obj_num_blocks := num_blocks p; obj_block_assignment := assignment;
      obj_blockmodel := model; obj_block_degrees_out := degrees_out;
      obj_block_degrees_in := degrees_in; obj_block_degrees := degrees;
      obj_block_reduction_rate := block_reduction_rate p;
      obj_overall_entropy := overall_entropy p;
      obj_num_blocks_to_merge := num_blocks_to_merge p |}, h).

(** [Vector(source)]: Eigen's copy constructor, a new buffer with the same
    coefficients. *)
Definition copy_vector (h : gmap nat buffer) (source : nat)
    : option (nat * gmap nat buffer) :=
  v ← read_vector h source; Some (allocate h (IntBuffer v)).

(** [source.copy()] on the matrix: a new map with the same cells. *)
Definition copy_matrix (h : gmap nat buffer) (source : nat)
    : option (nat * gmap nat buffer) :=
  m ← read_matrix h source; Some (allocate h (MapBuffer (matrix_copy m))).

Section Copy.

(** The constructor [Partition(num_blocks, neighbors, block_reduction_rate)],
    declared in [partition.hpp], outside the sources. *)
Variable Partition3 : Z -> list Matrix2Column -> float -> result Partition.

(** Each assignment [partition_copy.member = Vector(this->member)] moves the
    temporary's buffer into the member and releases the buffer the member
    had. [None]: [this] is not an object of the heap, or the constructor
    faults. *)
Definition copy (h : gmap nat buffer) (this : PartitionObject)
    : option (PartitionObject * gmap nat buffer) :=
  match Partition3 (obj_num_blocks this) [] (obj_block_reduction_rate this) with
  | Err _ => None
  | Ok initial =>
      let '(partition_copy, h) := construct h initial in
      '(a, h) ← copy_vector h (obj_block_assignment this);
      let h := release (obj_block_assignment partition_copy) h in
      let partition_copy := set_obj_block_assignment a partition_copy in
      let partition_copy :=
        set_obj_overall_entropy (obj_overall_entropy this) partition_copy in
      '(a, h) ← copy_matrix h (obj_blockmodel this);
      let h := release (obj_blockmodel partition_copy) h in
      let partition_copy := set_obj_blockmodel a partition_copy in
      '(a, h) ← copy_vector h (obj_block_degrees this);
      let h := release (obj_block_degrees partition_copy) h in
      let partition_copy := set_obj_block_degrees a partition_copy in
      '(a, h) ← copy_vector h (obj_block_degrees_out this);
      let h := release (obj_block_degrees_out partition_copy) h in
      let partition_copy := set_obj_block_degrees_out a partition_copy in
      '(a, h) ← copy_vector h (obj_block_degrees_in this);
      let h := release (obj_block_degrees_in partition_copy) h in
      let partition_copy := set_obj_block_degrees_in a partition_copy in
      let partition_copy := set_obj_num_blocks_to_merge 0 partition_copy in
      Some (partition_copy, h)
  end.

End Copy.

(** ** Concrete inputs *)

(** A partition as it stands before [initialize_edge_counts]: the given
    assignment and pending-merge count, an empty aggregate matrix, and
    degree vectors of [num_blocks] zeros. *)
Definition fresh_partition (blocks : Z) (assignment : Vector) (to_merge : Z) : Partition :=
  {| num_blocks := blocks; block_assignment := assignment;
     blockmodel := BoostMappedMatrix_new blocks blocks;
     block_degrees_out := replicate (Z.to_nat blocks) 0;
     block_degrees_in := replicate (Z.to_nat blocks) 0;
     block_degrees := replicate (Z.to_nat blocks) 0;
     block_reduction_rate := 0.5%float; overall_entropy := 0%float;
     num_blocks_to_merge := to_merge |}.

(** Constructors that store their arguments, for the closed examples. *)
Definition storing_constructor4 (blocks : Z) (neighbors : list Matrix2Column)
    (rate : float) (assignment : Vector) : result Partition :=
  Ok {| num_blocks := blocks; block_assignment := assignment;
        blockmodel := BoostMappedMatrix_new blocks blocks;
        block_degrees_out := replicate (Z.to_nat blocks) 0;
        block_degrees_in := replicate (Z.to_nat blocks) 0;
        block_degrees := replicate (Z.to_nat blocks) 0;
        block_reduction_rate := rate; overall_entropy := 0%float;
        num_blocks_to_merge := 0 |}.

Definition storing_constructor3 (blocks : Z) (neighbors : list Matrix2Column)
    (rate : float) : result Partition :=
  storing_constructor4 blocks neighbors rate (replicate (length neighbors) 0).

(** Two vertices in block 0 of two blocks, one edge [0 -> 1] of weight 1. *)
Definition two_vertices : Partition := fresh_partition 2 [0; 0] 0.
Definition one_edge : list Matrix2Column := [[(1, 1)]; []].

(** Three vertices in two blocks, no two neighbours in the same block. *)
Definition alternating : Partition := fresh_partition 2 [0; 1; 0] 0.

(** Three singleton blocks with the chain of proposals [0 -> 1 -> 2] and
    two merges pending. *)
Definition chain : Partition := fresh_partition 3 [0; 1; 2] 2.
Definition chain_scores : list float := [3%float; 2%float; 1%float].

(** Two singleton blocks, one merge pending. *)
Definition pair : Partition := fresh_partition 2 [0; 1] 1.

(** [two_vertices] after one, two and three calls of
    [initialize_edge_counts]: after the first, its degree vectors are no
    longer zero. *)
Definition count_again (p : Partition) : Partition :=
  match initialize_edge_counts one_edge p with
  | Ok after => after
  | Err _ => p
  end.

Definition counted_once : Partition := count_again two_vertices.
Definition counted_twice : Partition := count_again counted_once.
Definition counted_thrice : Partition := count_again counted_twice.

(** A heap holding one partition object. *)
Definition one_object : PartitionObject * gmap nat buffer :=
  construct ∅ (fresh_partition 2 [0; 1; 0] 1).

(** The relabelling of one block id. *)
Definition renamed (from_block to_block block : Z) : Z :=
  if bool_decide (block = from_block) then to_block else block.

(** The presence array over the ids [0 .. size-1] of a membership vector. *)
Definition presence (membership : Vector) (size : nat) : Vector :=
  (fun block => if bool_decide (Z.of_nat block ∈ membership) then 1 else 0) <$> seq 0 size.

(** What [initialize_edge_counts] leaves as it is while it counts. *)
Definition same_frame (p s : Partition) : Prop :=
  num_blocks s = num_blocks p
  /\ block_assignment s = block_assignment p
  /\ length (block_degrees_out s) = length (block_degrees_out p)
  /\ length (block_degrees_in s) = length (block_degrees_in p)
  /\ block_reduction_rate s = block_reduction_rate p
  /\ overall_entropy s = overall_entropy p
  /\ num_blocks_to_merge s = num_blocks_to_merge p.

Definition degrees_in_range (s : Partition) : Prop :=
  Forall in_int_range (block_degrees_out s)
  /\ Forall in_int_range (block_degrees_in s).

(** [t] is [s] with the degree vectors shifted by [d_out] and [d_in]. *)
Definition shifted (d_out d_in : list Z) (s t : Partition) : Prop :=
  num_blocks t = num_blocks s
  /\ block_assignment t = block_assignment s
  /\ blockmodel t = blockmodel s
  /\ length d_out = length (block_degrees_out s)
  /\ length d_in = length (block_degrees_in s)
  /\ block_degrees_out t = zip_with int_add (block_degrees_out s) d_out
  /\ block_degrees_in t = zip_with int_add (block_degrees_in s) d_in.

(** The rows of the blockmodel of [s] sum to its out-degrees. *)
Definition row_sums_counted (blocks : Z) (assignment : list Z) (s : Partition) : Prop :=
  ncols (blockmodel s) = blocks
  /\ block_assignment s = assignment
  /\ forall (i : nat) (x : Z),
       block_degrees_out s !! i = Some x ->
       row_sum (blockmodel s) (Z.of_nat i) = x.

(** Twice an [int]. *)
Definition twice (x : Z) : Z := wrap (2 * x).

(** [num_blocks_to_merge = x] on a partition value. *)
Definition set_num_blocks_to_merge (x : Z) (p : Partition) : Partition :=
  {| num_blocks := num_blocks p; block_assignment := block_assignment p;
     blockmodel := blockmodel p; block_degrees_out := block_degrees_out p;
     block_degrees_in := block_degrees_in p; block_degrees := block_degrees p;
     block_reduction_rate := block_reduction_rate p;
     overall_entropy := overall_entropy p;
     num_blocks_to_merge := x |}.

(** What [carry_out_best_merges] leaves as it is: the aggregates, the
    scalars other than [num_blocks], and the number of vertices. *)
Definition aggregates_kept (p q : Partition) : Prop :=
  blockmodel q = blockmodel p
  /\ block_degrees_out q = block_degrees_out p
  /\ block_degrees_in q = block_degrees_in p
  /\ block_degrees q = block_degrees p
  /\ block_reduction_rate q = block_reduction_rate p
  /\ overall_entropy q = overall_entropy p
  /\ num_blocks_to_merge q = num_blocks_to_merge p
  /\ length (block_assignment q) = length (block_assignment p).

(** One merge pending on three blocks, scored with two scores. *)
Definition three_blocks : Partition := fresh_partition 3 [1; 0; 1] 1.

(** The edges of an adjacency, in the order [initialize_edge_counts] visits
    them: the source vertex with its row (neighbor, weight). *)
Fixpoint edges_from (vertex : nat) (neighbors : list Matrix2Column)
    : list (nat * (Z * Z)) :=
  match neighbors with
  | [] => []
  | vertex_neighbors :: rest =>
      ((fun edge => (vertex, edge)) <$> vertex_neighbors)
      ++ edges_from (S vertex) rest
  end.

(** The inner loop body over a list of edges. *)
Definition count_edges (edges : list (nat * (Z * Z))) (this : Partition)
    : result Partition :=
  for_each (fun _ e this => count_edge e.1 e.2 this) 0 edges this.

(** The summed weight of the edges that [select] picks. *)
Definition weight_of (select : nat * (Z * Z) -> bool)
    (edges : list (nat * (Z * Z))) : Z :=
  foldr (fun e acc => if select e then e.2.2 + acc else acc) 0 edges.

(** The edge goes from a vertex of block [i] to a vertex of block [j]. *)
Definition joins (assignment : list Z) (i j : Z) (e : nat * (Z * Z)) : bool :=
  bool_decide (assignment !! e.1 = Some i
               /\ assignment !! Z.to_nat e.2.1 = Some j).

(** The edge leaves a vertex of block [b]. *)
Definition leaves (assignment : list Z) (b : nat) (e : nat * (Z * Z)) : bool :=
  bool_decide (assignment !! e.1 = Some (Z.of_nat b)).

(** The edge enters the vertex [u]. *)
Definition enters (u : nat) (e : nat * (Z * Z)) : bool :=
  bool_decide (e.2.1 = Z.of_nat u).

(** Every index that [count_edge] uses on this edge is inside its vector. *)
Definition edge_in_bounds (this : Partition) (e : nat * (Z * Z)) : Prop :=
  exists block neighbor_block,
    block_assignment this !! e.1 = Some block
    /\ 0 <= e.2.1
    /\ block_assignment this !! Z.to_nat e.2.1 = Some neighbor_block
    /\ 0 <= block
    /\ (Z.to_nat block < length (block_degrees_out this))%nat
    /\ (Z.to_nat e.2.1 < length (block_degrees_in this))%nat.

(** ** Machine integers: lemmas *)

Lemma wrap_in_range z : in_int_range (wrap z).
Proof.
  unfold in_int_range, wrap.
  pose proof (Z.mod_pos_bound (z + 2 ^ 31) (2 ^ 32)). lia.
Qed.

Lemma wrap_small z : in_int_range z -> wrap z = z.
Proof.
  unfold in_int_range, wrap. intros Hz.
  rewrite Z.mod_small by lia. lia.
Qed.

Lemma wrap_add_l a b : wrap (wrap a + b) = wrap (a + b).
Proof.
  unfold wrap. f_equal.
  replace (((a + 2 ^ 31) mod 2 ^ 32 - 2 ^ 31) + b + 2 ^ 31)
    with ((a + 2 ^ 31) mod 2 ^ 32 + b) by lia.
  rewrite Zplus_mod_idemp_l. f_equal. lia.
Qed.

Lemma wrap_add_r a b : wrap (a + wrap b) = wrap (a + b).
Proof. rewrite (Z.add_comm a), wrap_add_l. f_equal. lia. Qed.

Lemma wrap_wrap a : wrap (wrap a) = wrap a.
Proof. apply wrap_small, wrap_in_range. Qed.

Lemma int_add_one_next z :
  in_int_range z -> int_add z 1 = z + 1 \/ int_add z 1 < 0.
Proof.
  intros Hz. unfold int_add, in_int_range in *.
  destruct (decide (z + 1 < 2 ^ 31)) as [Hlt|Hge].
  - left. apply wrap_small. unfold in_int_range. lia.
  - right. assert (z = 2 ^ 31 - 1) as -> by lia. by vm_compute.
Qed.

(** ** The result monad and the loops: lemmas *)

Lemma bind_Ok {A B : Type} (m : result A) (f : A -> result B) (b : B) :
  m ≫= f = Ok b -> exists a, m = Ok a /\ f a = Ok b.
Proof. destruct m as [a|e]; simpl; [eauto | discriminate]. Qed.

Lemma vec_get_Ok name v index x :
  vec_get name v index = Ok x <->
  0 <= index /\ v !! Z.to_nat index = Some x.
Proof.
  unfold vec_get. case_bool_decide.
  - destruct (v !! Z.to_nat index) eqn:E; split; intros H'.
    + by inversion H'.
    + destruct H' as [_ H']. by inversion H'.
    + discriminate.
    + destruct H' as [_ H']. discriminate.
  - split; [discriminate | intros [? _]; lia].
Qed.

Lemma vec_get_fault name v index e :
  vec_get name v index = Err e -> e = OutOfBounds name index (length v).
Proof.
  unfold vec_get. case_bool_decide; [destruct (v !! Z.to_nat index)|];
    intros H'; by inversion H'.
Qed.

Lemma vec_set_Ok name v index x v' :
  vec_set name v index x = Ok v' <->
  0 <= index < Z.of_nat (length v) /\ v' = <[Z.to_nat index := x]> v.
Proof.
  unfold vec_set. case_bool_decide; split; intros H'.
  - by inversion H'.
  - destruct H' as [_ ->]. done.
  - discriminate.
  - destruct H' as [? _]. lia.
Qed.

Lemma vec_set_fault name v index x e :
  vec_set name v index x = Err e -> e = OutOfBounds name index (length v).
Proof. unfold vec_set. case_bool_decide; intros H'; by inversion H'. Qed.

Lemma vec_set_length name v index x v' :
  vec_set name v index x = Ok v' -> length v' = length v.
Proof. intros [_ ->]%vec_set_Ok. apply length_insert. Qed.

Lemma for_each_invariant {A St : Type} (I : St -> Prop)
    (body : nat -> A -> St -> result St) :
  (forall i x s s', I s -> body i x s = Ok s' -> I s') ->
  forall xs i s s', I s -> for_each body i xs s = Ok s' -> I s'.
Proof.
  intros Hbody. induction xs as [|x xs IH]; intros i s s' Hs Hrun.
  - cbn in Hrun. inversion Hrun. by subst.
  - cbn [for_each] in Hrun. apply bind_Ok in Hrun as (s1 & Hstep & Hrest).
    eapply IH; [|exact Hrest]. eauto.
Qed.

Lemma for_range_invariant {St : Type} (I : St -> Prop)
    (body : nat -> St -> result St) :
  (forall i s s', I s -> body i s = Ok s' -> I s') ->
  forall count first s s', I s -> for_range body first count s = Ok s' -> I s'.
Proof.
  intros Hbody. induction count as [|count IH]; intros first s s' Hs Hrun.
  - cbn in Hrun. inversion Hrun. by subst.
  - cbn [for_range] in Hrun. apply bind_Ok in Hrun as (s1 & Hstep & Hrest).
    eapply IH; [|exact Hrest]. eauto.
Qed.

Lemma for_each_simulation {A St : Type} (R : St -> St -> Prop)
    (body : nat -> A -> St -> result St) :
  (forall i x s t s', R s t -> body i x s = Ok s' ->
     exists t', body i x t = Ok t' /\ R s' t') ->
  forall xs i s t s', R s t -> for_each body i xs s = Ok s' ->
    exists t', for_each body i xs t = Ok t' /\ R s' t'.
Proof.
  intros Hbody. induction xs as [|x xs IH]; intros i s t s' Hst Hrun.
  - cbn in Hrun. inversion Hrun; subst. by exists t.
  - cbn [for_each] in Hrun. apply bind_Ok in Hrun as (s1 & Hstep & Hrest).
    destruct (Hbody _ _ _ _ _ Hst Hstep) as (t1 & Ht1 & Hst1).
    destruct (IH _ _ _ _ Hst1 Hrest) as (t' & Ht' & Hst').
    exists t'. split; [|done]. cbn [for_each]. by rewrite Ht1.
Qed.

Lemma for_each_fault {A St : Type} (P : fault -> Prop)
    (body : nat -> A -> St -> result St) :
  (forall i x s e, body i x s = Err e -> P e) ->
  forall xs i s e, for_each body i xs s = Err e -> P e.
Proof.
  intros Hbody. induction xs as [|x xs IH]; intros i s e Hrun; [done|].
  cbn [for_each] in Hrun. destruct (body i x s) as [s1|e1] eqn:Hstep.
  - cbn in Hrun. by eapply IH.
  - cbn in Hrun. inversion Hrun; subst. by eapply Hbody.
Qed.

Lemma for_range_fault {St : Type} (P : fault -> Prop)
    (body : nat -> St -> result St) :
  (forall i s e, body i s = Err e -> P e) ->
  forall count first s e, for_range body first count s = Err e -> P e.
Proof.
  intros Hbody. induction count as [|count IH]; intros first s e Hrun; [done|].
  cbn [for_range] in Hrun. destruct (body first s) as [s1|e1] eqn:Hstep.
  - cbn in Hrun. by eapply IH.
  - cbn in Hrun. inversion Hrun; subst. by eapply Hbody.
Qed.

(** ** [initialize_edge_counts] *)

(** What one counted edge does to the partition. *)
Lemma count_edge_Ok vertex edge this after :
  count_edge vertex edge this = Ok after ->
  exists block neighbor_block out_old in_old,
    block_assignment this !! vertex = Some block
    /\ 0 <= edge.1
    /\ block_assignment this !! Z.to_nat edge.1 = Some neighbor_block
    /\ 0 <= block
    /\ block_degrees_out this !! Z.to_nat block = Some out_old
    /\ block_degrees_in this !! Z.to_nat edge.1 = Some in_old
    /\ after =
       set_block_degrees_in
         (<[Z.to_nat edge.1 := int_add in_old edge.2]> (block_degrees_in this))
         (set_block_degrees_out
            (<[Z.to_nat block := int_add out_old edge.2]> (block_degrees_out this))
            (set_blockmodel
               (matrix_add (blockmodel this) block neighbor_block edge.2) this)).
Proof.
  unfold count_edge. intros H.
  apply bind_Ok in H as (block & Hblock & H).
  apply bind_Ok in H as (neighbor_block & Hnb & H).
  apply bind_Ok in H as (out_old & Hout & H).
  apply bind_Ok in H as (out_new & Hout' & H).
  apply bind_Ok in H as (in_old & Hin & H).
  apply bind_Ok in H as (in_new & Hin' & H).
  cbn in *.
  apply vec_get_Ok in Hblock as [_ Hblock]. rewrite Nat2Z.id in Hblock.
  apply vec_get_Ok in Hnb as [Hn0 Hnb].
  apply vec_get_Ok in Hout as [Hb0 Hout].
  apply vec_set_Ok in Hout' as [_ ->].
  apply vec_get_Ok in Hin as [_ Hin].
  apply vec_set_Ok in Hin' as [_ ->].
  exists block, neighbor_block, out_old, in_old.
  repeat (split; [done|]). by inversion H.
Qed.

Lemma count_edge_Ok_intro vertex edge this block neighbor_block out_old in_old :
  block_assignment this !! vertex = Some block ->
  0 <= edge.1 ->
  block_assignment this !! Z.to_nat edge.1 = Some neighbor_block ->
  0 <= block ->
  block_degrees_out this !! Z.to_nat block = Some out_old ->
  block_degrees_in this !! Z.to_nat edge.1 = Some in_old ->
  count_edge vertex edge this =
    Ok (set_block_degrees_in
         (<[Z.to_nat edge.1 := int_add in_old edge.2]> (block_degrees_in this))
         (set_block_degrees_out
            (<[Z.to_nat block := int_add out_old edge.2]> (block_degrees_out this))
            (set_blockmodel
               (matrix_add (blockmodel this) block neighbor_block edge.2) this))).
Proof.
  intros Hblock Hn0 Hnb Hb0 Hout Hin. unfold count_edge.
  assert (vec_get "block_assignment" (block_assignment this) (Z.of_nat vertex)
          = Ok block) as ->.
  { apply vec_get_Ok. split; [lia | by rewrite Nat2Z.id]. }
  cbn [mbind result_bind].
  assert (vec_get "block_assignment" (block_assignment this) edge.1
          = Ok neighbor_block) as -> by by apply vec_get_Ok.
  cbn [mbind result_bind].
  cbn [block_degrees_out block_degrees_in set_blockmodel set_block_degrees_out].
  assert (vec_get "block_degrees_out" (block_degrees_out this) block
          = Ok out_old) as -> by by apply vec_get_Ok.
  cbn [mbind result_bind].
  assert (vec_set "block_degrees_out" (block_degrees_out this) block
            (int_add out_old edge.2)
          = Ok (<[Z.to_nat block := int_add out_old edge.2]> (block_degrees_out this)))
    as ->.
  { apply vec_set_Ok. split; [|done]. apply lookup_lt_Some in Hout. lia. }
  cbn [mbind result_bind].
  assert (vec_get "block_degrees_in" (block_degrees_in this) edge.1
          = Ok in_old) as -> by by apply vec_get_Ok.
  cbn [mbind result_bind].
  assert (vec_set "block_degrees_in" (block_degrees_in this) edge.1
            (int_add in_old edge.2)
          = Ok (<[Z.to_nat edge.1 := int_add in_old edge.2]> (block_degrees_in this)))
    as ->.
  { apply vec_set_Ok. split; [|done]. apply lookup_lt_Some in Hin. lia. }
  reflexivity.
Qed.

Lemma count_edge_frame p vertex edge s s' :
  same_frame p s /\ degrees_in_range s ->
  count_edge vertex edge s = Ok s' ->
  same_frame p s' /\ degrees_in_range s'.
Proof.
  intros [(Hn & Ha & Ho & Hi & Hr & He & Hm) [Hor Hir]] Hrun.
  apply count_edge_Ok in Hrun
    as (block & nb & out_old & in_old & _ & _ & _ & _ & _ & _ & ->).
  split.
  - unfold same_frame. cbn. rewrite !length_insert. done.
  - split; cbn; apply Forall_insert; try done; apply wrap_in_range.
Qed.

Lemma zip_with_int_add_insert (l d : list Z) (i : nat) (x w delta : Z) :
  l !! i = Some x -> d !! i = Some delta ->
  <[i := int_add (int_add x delta) w]> (zip_with int_add l d)
  = zip_with int_add (<[i := int_add x w]> l) d.
Proof.
  intros Hl Hd. rewrite <- (list_insert_id d i delta) at 2 by done.
  rewrite <- insert_zip_with. f_equal.
  unfold int_add. rewrite !wrap_add_l. f_equal. lia.
Qed.

Lemma count_edge_shifted d_out d_in vertex edge s t s' :
  shifted d_out d_in s t ->
  count_edge vertex edge s = Ok s' ->
  exists t', count_edge vertex edge t = Ok t' /\ shifted d_out d_in s' t'.
Proof.
  intros (Hn & Ha & Hm & Hlo & Hli & Ho & Hi) Hrun.
  apply count_edge_Ok in Hrun
    as (block & nb & out_old & in_old & Hb & Hn0 & Hnb & Hb0 & Hout & Hin & ->).
  destruct (lookup_lt_is_Some_2 d_out (Z.to_nat block)) as [delta_out Hdo].
  { rewrite Hlo. by eapply lookup_lt_Some. }
  destruct (lookup_lt_is_Some_2 d_in (Z.to_nat edge.1)) as [delta_in Hdi].
  { rewrite Hli. by eapply lookup_lt_Some. }
  eexists. split.
  - eapply count_edge_Ok_intro; rewrite ?Ha; try done.
    + rewrite Ho, lookup_zip_with, Hout, Hdo. reflexivity.
    + rewrite Hi, lookup_zip_with, Hin, Hdi. reflexivity.
  - unfold shifted. cbn. rewrite !length_insert, Hm, Ho, Hi.
    repeat (split; [done|]). split; by apply zip_with_int_add_insert.
Qed.

Lemma zip_with_int_add_zero (zeros d : list Z) :
  Forall (fun x => x = 0) zeros -> Forall in_int_range d ->
  length d = length zeros ->
  zip_with int_add zeros d = d.
Proof.
  intros Hz. revert d. induction Hz as [|z zeros -> _ IH]; intros d Hd Hlen.
  - by destruct d.
  - destruct d as [|x d]; [done|]. inversion Hd; subst. cbn.
    f_equal; [by apply wrap_small | apply IH; [done | by inversion Hlen]].
Qed.

Lemma zip_with_twice (out_v in_v : list Z) :
  zip_with int_add (twice <$> out_v) (twice <$> in_v)
  = twice <$> zip_with int_add out_v in_v.
Proof.
  revert in_v. induction out_v as [|x out_v IH]; intros [|y in_v]; try done.
  cbn. f_equal; [|apply IH].
  unfold twice, int_add. rewrite wrap_add_l, wrap_add_r.
  replace (2 * wrap (x + y)) with (wrap (x + y) + wrap (x + y)) by lia.
  rewrite wrap_add_l, wrap_add_r. f_equal. lia.
Qed.

Lemma zip_with_int_add_diag (v : list Z) : zip_with int_add v v = twice <$> v.
Proof.
  induction v as [|x v IH]; [done|]. cbn [zip_with fmap list_fmap].
  rewrite IH. f_equal. unfold int_add, twice. f_equal. lia.
Qed.

Lemma int_sum_wrap {A : Type} (f : A -> Z) (l : list A) :
  foldr (fun c acc => int_add (f c) acc) 0 l
  = wrap (foldr (fun c acc => f c + acc) 0 l).
Proof.
  induction l as [|c l IH]; [done|].
  cbn [foldr]. rewrite IH. unfold int_add. by rewrite wrap_add_r.
Qed.

Lemma sum_agree {A : Type} (f g : A -> Z) (l : list A) :
  (forall c, c ∈ l -> g c = f c) ->
  foldr (fun c acc => g c + acc) 0 l = foldr (fun c acc => f c + acc) 0 l.
Proof.
  induction l as [|c l IH]; intros Hfg; [done|].
  cbn [foldr]. rewrite Hfg by left. rewrite IH; [done|].
  intros c' Hc'. apply Hfg. by right.
Qed.

Lemma sum_update {A : Type} (f g : A -> Z) (l : list A) (col : A) :
  NoDup l -> col ∈ l -> (forall c, c <> col -> g c = f c) ->
  foldr (fun c acc => g c + acc) 0 l
  = foldr (fun c acc => f c + acc) 0 l + (g col - f col).
Proof.
  induction 1 as [|c l Hc Hl IH]; intros Hin Hfg.
  - by apply elem_of_nil in Hin.
  - cbn [foldr]. apply elem_of_cons in Hin as [->|Hin].
    + rewrite (sum_agree f g l); [lia|].
      intros c' Hc'. apply Hfg. intros ->. done.
    + rewrite IH by done. rewrite Hfg; [lia|]. intros ->. done.
Qed.

Lemma matrix_get_add (m : BoostMappedMatrix) (row col val row' col' : Z) :
  matrix_get (matrix_add m row col val) row' col'
  = if decide ((row, col) = (row', col'))
    then int_add (matrix_get m row col) val
    else matrix_get m row' col'.
Proof.
  unfold matrix_get, matrix_add. cbn [cells].
  rewrite lookup_insert. by destruct (decide ((row, col) = (row', col'))).
Qed.

Lemma row_sum_add_same (m : BoostMappedMatrix) (row col val : Z) :
  0 <= col < ncols m ->
  row_sum (matrix_add m row col val) row = int_add (row_sum m row) val.
Proof.
  intros Hcol. unfold row_sum. cbn [ncols matrix_add].
  rewrite !int_sum_wrap.
  rewrite (sum_update (matrix_get m row)
             (matrix_get (matrix_add m row col val) row) _ col).
  - rewrite matrix_get_add, decide_True by done.
    unfold int_add. rewrite wrap_add_l.
    set (total := foldr _ 0 _). set (old := matrix_get m row col).
    replace (total + (wrap (old + val) - old))
      with ((total - old) + wrap (old + val)) by lia.
    rewrite wrap_add_r. f_equal. lia.
  - apply NoDup_seqZ.
  - apply elem_of_seqZ. lia.
  - intros c Hc. rewrite matrix_get_add, decide_False; [done|].
    intros [= ?]. done.
Qed.

Lemma row_sum_add_other (m : BoostMappedMatrix) (row col val row' : Z) :
  row' <> row ->
  row_sum (matrix_add m row col val) row' = row_sum m row'.
Proof.
  intros Hrow. unfold row_sum. cbn [ncols matrix_add].
  rewrite !int_sum_wrap. f_equal. apply sum_agree.
  intros c _. rewrite matrix_get_add, decide_False; [done|].
  intros [= ? ?]. done.
Qed.

Lemma row_sum_new (rows cols row : Z) :
  row_sum (BoostMappedMatrix_new rows cols) row = 0.
Proof.
  unfold row_sum. rewrite int_sum_wrap. cbn [ncols BoostMappedMatrix_new].
  rewrite (sum_agree (fun _ => 0)); [|done].
  induction (seqZ 0 cols) as [|c l IH]; [done|]. cbn [foldr].
  rewrite Z.add_0_l. exact IH.
Qed.

Lemma count_edge_row_sums (blocks : Z) (assignment : list Z) vertex edge s s' :
  (forall b, b ∈ assignment -> 0 <= b < blocks) ->
  row_sums_counted blocks assignment s ->
  count_edge vertex edge s = Ok s' ->
  row_sums_counted blocks assignment s'.
Proof.
  intros Hvalid (Hcols & Ha & Hrows) Hrun.
  apply count_edge_Ok in Hrun
    as (block & nb & out_old & in_old & Hb & _ & Hnb & Hb0 & Hout & _ & ->).
  rewrite Ha in Hb, Hnb.
  assert (0 <= nb < blocks) as Hnb_range
    by (apply Hvalid; by eapply list_elem_of_lookup_2).
  split; [|split]; cbn; [done..|].
  intros i x Hi.
  destruct (decide (i = Z.to_nat block)) as [->|Hne].
  - rewrite list_lookup_insert_eq in Hi by (by eapply lookup_lt_Some).
    inversion Hi; subst x. rewrite Z2Nat.id by done.
    rewrite row_sum_add_same by lia. f_equal.
    rewrite <- (Z2Nat.id block) by done. by apply Hrows.
  - rewrite list_lookup_insert_ne in Hi by done.
    rewrite row_sum_add_other by lia. by apply Hrows.
Qed.

(** X1. The half of the row and column invariant that the code keeps: for a
    partition whose out-degrees are zero before the call and whose block
    ids lie in [[0, num_blocks)], every entry of [block_degrees_out] is the
    sum of its row of the blockmodel. *)
Lemma initialize_edge_counts_row_sums (neighbors : list Matrix2Column)
    (this after : Partition) :
  Forall (fun x => x = 0) (block_degrees_out this) ->
  (forall b, b ∈ block_assignment this -> 0 <= b < num_blocks this) ->
  initialize_edge_counts neighbors this = Ok after ->
  forall (i : nat) (x : Z),
    block_degrees_out after !! i = Some x ->
    row_sum (blockmodel after) (Z.of_nat i) = x.
Proof.
  intros Hzero Hvalid Hrun. unfold initialize_edge_counts in Hrun.
  apply bind_Ok in Hrun as (counted & Hloop & Hrun).
  apply bind_Ok in Hrun as (degrees & _ & Hrun).
  inversion Hrun; subst after; clear Hrun. cbn.
  eapply (for_each_invariant
            (row_sums_counted (num_blocks this) (block_assignment this)));
    [| |exact Hloop].
  - intros v edges s s' Hs Hv. unfold count_vertex in Hv.
    eapply (for_each_invariant
              (row_sums_counted (num_blocks this) (block_assignment this)));
      [|exact Hs|exact Hv].
    intros ? ? ? ? Hs0 He. cbn beta in He.
    eapply count_edge_row_sums; eassumption.
  - split; [|split]; cbn; [done..|].
    intros i x Hi. rewrite row_sum_new.
    symmetry. eapply Forall_lookup_1 in Hzero; [exact Hzero|exact Hi].
Qed.

(** On the spec's example: four vertices in the blocks [[0; 0; 1; 1]] with
    the edges [0 -> 2] and [1 -> 3]. The neighbour ids 2 and 3 are past the
    end of the in-degree vector of two blocks. *)
Example initialize_edge_counts_spec_example :
  initialize_edge_counts [[(2, 3)]; [(3, 2)]; []; []]
    (fresh_partition 2 [0; 0; 1; 1] 0)
  = Err (OutOfBounds "block_degrees_in" 2 2).
Proof. vm_compute. reflexivity. Qed.


Lemma for_each_index {A St : Type} (body : A -> St -> result St)
    (xs : list A) (i j : nat) (s : St) :
  for_each (fun _ x s => body x s) i xs s = for_each (fun _ x s => body x s) j xs s.
Proof.
  revert i j s. induction xs as [|x xs IH]; intros i j s; [done|].
  cbn [for_each]. destruct (body x s); cbn; [apply IH|done].
Qed.

Lemma for_each_app {A St : Type} (body : A -> St -> result St)
    (xs ys : list A) (s : St) :
  for_each (fun _ x s => body x s) 0 (xs ++ ys) s
  = for_each (fun _ x s => body x s) 0 xs s
    ≫= for_each (fun _ x s => body x s) 0 ys.
Proof.
  revert s. induction xs as [|x xs IH]; intros s; [done|].
  cbn [for_each app]. destruct (body x s) as [s1|e]; cbn; [|done].
  rewrite (for_each_index body (xs ++ ys) 1 0), (for_each_index body xs 1 0).
  apply IH.
Qed.

Lemma for_each_fmap {A B St : Type} (f : A -> B) (body : B -> St -> result St)
    (xs : list A) (s : St) :
  for_each (fun _ y s => body y s) 0 (f <$> xs) s
  = for_each (fun _ x s => body (f x) s) 0 xs s.
Proof.
  revert s. induction xs as [|x xs IH]; intros s; [done|].
  cbn [for_each fmap list_fmap]. destruct (body (f x) s) as [s1|e]; cbn; [|done].
  rewrite (for_each_index body (f <$> xs) 1 0).
  rewrite (for_each_index (fun x s => body (f x) s) xs 1 0). apply IH.
Qed.

(** The two nested loops visit the edges of [edges_from] in order. *)
Lemma count_vertices_edges (neighbors : list Matrix2Column) :
  forall (vertex : nat) (s : Partition),
    for_each count_vertex vertex neighbors s
    = count_edges (edges_from vertex neighbors) s.
Proof.
  induction neighbors as [|edges rest IH]; intros vertex s; [done|].
  cbn [for_each edges_from]. unfold count_edges.
  rewrite (for_each_app (fun e s => count_edge e.1 e.2 s)).
  rewrite (for_each_fmap (fun edge => (vertex, edge))
             (fun e s => count_edge e.1 e.2 s)).
  cbn [fst snd].
  change (count_vertex vertex edges s)
    with (for_each (fun _ edge this => count_edge vertex edge this) 0 edges s).
  destruct (for_each _ 0 edges s) as [s1|e]; cbn [mbind result_bind]; [|done].
  apply IH.
Qed.

Lemma count_edge_same_frame vertex edge s s' :
  count_edge vertex edge s = Ok s' -> same_frame s s'.
Proof.
  intros Hrun. apply count_edge_Ok in Hrun
    as (block & nb & out_old & in_old & _ & _ & _ & _ & _ & _ & ->).
  unfold same_frame; cbn. by rewrite !length_insert.
Qed.

Lemma same_frame_trans (p q r : Partition) :
  same_frame p q -> same_frame q r -> same_frame p r.
Proof.
  unfold same_frame. intros (? & ? & ? & ? & ? & ? & ?) (? & ? & ? & ? & ? & ? & ?).
  repeat split; congruence.
Qed.

Lemma count_edges_same_frame (edges : list (nat * (Z * Z))) :
  forall s s', count_edges edges s = Ok s' -> same_frame s s'.
Proof.
  unfold count_edges. intros s s' Hrun.
  eapply (for_each_invariant (same_frame s)); [| |exact Hrun]; [|done].
  intros i e t t' Ht Hstep. cbn beta in Hstep.
  eapply same_frame_trans; [exact Ht|]. by eapply count_edge_same_frame.
Qed.

(** A quantity that [count_edge] raises by the weight of the edges picked by
    [select], and leaves alone on the others, ends as the wrapped sum. *)
Lemma count_edges_accumulates (assignment : list Z) (f : Partition -> Z)
    (select : nat * (Z * Z) -> bool) :
  (forall v e s s1,
     block_assignment s = assignment -> count_edge v e s = Ok s1 ->
     f s1 = if select (v, e) then int_add (f s) e.2 else f s) ->
  forall edges s s',
    block_assignment s = assignment -> in_int_range (f s) ->
    count_edges edges s = Ok s' ->
    f s' = wrap (f s + weight_of select edges).
Proof.
  intros Hstep. unfold count_edges.
  induction edges as [|[v e] edges IH]; intros s s' Ha Hr Hrun.
  - cbn in Hrun. inversion Hrun; subst. cbn. rewrite Z.add_0_r.
    symmetry. by apply wrap_small.
  - cbn [for_each fst snd] in Hrun.
    apply bind_Ok in Hrun as (s1 & H1 & Hrun).
    rewrite (for_each_index (fun e s => count_edge e.1 e.2 s) edges 1 0) in Hrun.
    pose proof (Hstep _ _ _ _ Ha H1) as Hf.
    pose proof (count_edge_same_frame _ _ _ _ H1) as (_ & Ha1 & _).
    rewrite Ha in Ha1. cbn [weight_of foldr] in *.
    fold (weight_of select edges).
    assert (in_int_range (f s1)) as Hr1.
    { rewrite Hf. destruct (select (v, e)); [apply wrap_in_range|done]. }
    rewrite (IH s1 s' Ha1 Hr1 Hrun), Hf.
    destruct (select (v, e)); [|done].
    unfold int_add. rewrite wrap_add_l. cbn [snd]. f_equal. lia.
Qed.

Lemma initialize_edge_counts_Ok (neighbors : list Matrix2Column)
    (this after : Partition) :
  initialize_edge_counts neighbors this = Ok after <->
  exists counted,
    count_edges (edges_from 0 neighbors)
      (set_blockmodel
         (BoostMappedMatrix_new (num_blocks this) (num_blocks this)) this)
    = Ok counted
    /\ length (block_degrees_out counted) = length (block_degrees_in counted)
    /\ after = set_block_degrees
                 (zip_with int_add (block_degrees_out counted)
                    (block_degrees_in counted)) counted.
Proof.
  unfold initialize_edge_counts. rewrite count_vertices_edges. split.
  - intros H. apply bind_Ok in H as (counted & Hloop & H).
    apply bind_Ok in H as (degrees & Hadd & H).
    unfold vec_add in Hadd. case_bool_decide; [|done].
    exists counted. repeat split; [done..|]. by simplify_eq.
  - intros (counted & -> & Hlen & ->). cbn [mbind result_bind].
    unfold vec_add. by rewrite bool_decide_eq_true_2.
Qed.

Lemma matrix_get_new (rows cols i j : Z) :
  matrix_get (BoostMappedMatrix_new rows cols) i j = 0.
Proof. unfold matrix_get. cbn [cells BoostMappedMatrix_new]. by rewrite lookup_empty. Qed.

Lemma count_edge_cell (assignment : list Z) (i j : Z) v e s s1 :
  block_assignment s = assignment -> count_edge v e s = Ok s1 ->
  matrix_get (blockmodel s1) i j
  = if joins assignment i j (v, e)
    then int_add (matrix_get (blockmodel s) i j) e.2
    else matrix_get (blockmodel s) i j.
Proof.
  intros Ha Hstep. apply count_edge_Ok in Hstep
    as (block & nb & out_old & in_old & Hb & Hn0 & Hnb & _ & _ & _ & ->).
  cbn. rewrite matrix_get_add. unfold joins. cbn [fst snd].
  rewrite <- Ha, Hb, Hnb.
  destruct (decide ((block, nb) = (i, j))) as [[= -> ->]|Hne].
  - by rewrite bool_decide_eq_true_2.
  - rewrite bool_decide_eq_false_2; [done|]. intros [[= ->] [= ->]]. done.
Qed.

(** X2. After [initialize_edge_counts], the cell [(i, j)] of the blockmodel is
    the summed weight (as an [int]) of the edges from a vertex of block [i]
    to a vertex of block [j], whatever the partition held before. *)
Theorem initialize_edge_counts_cells (neighbors : list Matrix2Column)
    (this after : Partition) (i j : Z) :
  initialize_edge_counts neighbors this = Ok after ->
  matrix_get (blockmodel after) i j
  = wrap (weight_of (joins (block_assignment this) i j) (edges_from 0 neighbors)).
Proof.
  intros (counted & Hloop & _ & ->)%initialize_edge_counts_Ok. cbn.
  eapply (count_edges_accumulates (block_assignment this)
            (fun s => matrix_get (blockmodel s) i j)
            (joins (block_assignment this) i j)) in Hloop.
  - rewrite Hloop. cbn [blockmodel set_blockmodel]. by rewrite matrix_get_new.
  - intros v e s s1. apply count_edge_cell.
  - done.
  - cbn [blockmodel set_blockmodel]. rewrite matrix_get_new.
    unfold in_int_range. lia.
Qed.

Lemma initialize_edge_counts_cells_witness :
  matrix_get (blockmodel counted_once) 0 0
  = wrap (weight_of (joins (block_assignment two_vertices) 0 0)
            (edges_from 0 one_edge)).
Proof. apply initialize_edge_counts_cells. reflexivity. Defined.

Lemma count_edge_out (assignment : list Z) (b : nat) v e s s1 :
  block_assignment s = assignment -> count_edge v e s = Ok s1 ->
  default 0 (block_degrees_out s1 !! b)
  = if leaves assignment b (v, e)
    then int_add (default 0 (block_degrees_out s !! b)) e.2
    else default 0 (block_degrees_out s !! b).
Proof.
  intros Ha Hstep. apply count_edge_Ok in Hstep
    as (block & nb & out_old & in_old & Hb & _ & _ & Hb0 & Hout & _ & ->).
  cbn. unfold leaves. cbn [fst snd]. rewrite <- Ha, Hb.
  destruct (decide (Z.to_nat block = b)) as [<-|Hne].
  - rewrite list_lookup_insert_eq by (by eapply lookup_lt_Some).
    rewrite Hout, bool_decide_eq_true_2; [done|]. f_equal. lia.
  - rewrite list_lookup_insert_ne by done.
    rewrite bool_decide_eq_false_2; [done|]. intros [= ->]. lia.
Qed.

Lemma count_edge_in (assignment : list Z) (u : nat) v e s s1 :
  block_assignment s = assignment -> count_edge v e s = Ok s1 ->
  default 0 (block_degrees_in s1 !! u)
  = if enters u (v, e)
    then int_add (default 0 (block_degrees_in s !! u)) e.2
    else default 0 (block_degrees_in s !! u).
Proof.
  intros Ha Hstep. apply count_edge_Ok in Hstep
    as (block & nb & out_old & in_old & _ & Hn0 & _ & _ & _ & Hin & ->).
  cbn. unfold enters. cbn [fst snd].
  destruct (decide (Z.to_nat e.1 = u)) as [<-|Hne].
  - rewrite list_lookup_insert_eq by (by eapply lookup_lt_Some).
    rewrite Hin, bool_decide_eq_true_2; [done|]. lia.
  - rewrite list_lookup_insert_ne by done.
    rewrite bool_decide_eq_false_2; [done|]. lia.
Qed.

(** X3. [initialize_edge_counts] adds to the out-degree of a block the summed
    weight (in [int] arithmetic) of the edges that leave its vertices. *)
Theorem initialize_edge_counts_out_degree (neighbors : list Matrix2Column)
    (this after : Partition) (b : nat) (before : Z) :
  initialize_edge_counts neighbors this = Ok after ->
  block_degrees_out this !! b = Some before ->
  in_int_range before ->
  block_degrees_out after !! b
  = Some (wrap (before + weight_of (leaves (block_assignment this) b)
                           (edges_from 0 neighbors))).
Proof.
  intros (counted & Hloop & _ & ->)%initialize_edge_counts_Ok Hb Hr. cbn.
  pose proof (count_edges_same_frame _ _ _ Hloop) as (_ & _ & Hlen & _).
  eapply (count_edges_accumulates (block_assignment this)
            (fun s => default 0 (block_degrees_out s !! b))
            (leaves (block_assignment this) b)) in Hloop.
  - cbn in Hloop, Hlen. rewrite Hb in Hloop. cbn in Hloop.
    destruct (block_degrees_out counted !! b) as [x|] eqn:Hx.
    + cbn in Hloop. by rewrite Hloop.
    + apply lookup_ge_None in Hx. apply lookup_lt_Some in Hb. lia.
  - intros v e s s1. apply count_edge_out.
  - done.
  - cbn. by rewrite Hb.
Qed.

Lemma initialize_edge_counts_out_degree_witness :
  block_degrees_out counted_twice !! 0%nat
  = Some (wrap (1 + weight_of (leaves (block_assignment counted_once) 0)
                      (edges_from 0 one_edge))).
Proof.
  apply (initialize_edge_counts_out_degree one_edge counted_once counted_twice).
  - reflexivity.
  - reflexivity.
  - unfold in_int_range. lia.
Defined.

(** X4. [initialize_edge_counts] adds the weight of an edge to the in-degree
    entry at the id of the vertex the edge enters: entry [u] of
    [block_degrees_in] grows by the summed weight (in [int] arithmetic) of
    the edges whose neighbor is the vertex [u]. *)
Theorem initialize_edge_counts_in_degree (neighbors : list Matrix2Column)
    (this after : Partition) (u : nat) (before : Z) :
  initialize_edge_counts neighbors this = Ok after ->
  block_degrees_in this !! u = Some before ->
  in_int_range before ->
  block_degrees_in after !! u
  = Some (wrap (before + weight_of (enters u) (edges_from 0 neighbors))).
Proof.
  intros (counted & Hloop & _ & ->)%initialize_edge_counts_Ok Hu Hr. cbn.
  pose proof (count_edges_same_frame _ _ _ Hloop) as (_ & _ & _ & Hlen & _).
  eapply (count_edges_accumulates (block_assignment this)
            (fun s => default 0 (block_degrees_in s !! u))
            (enters u)) in Hloop.
  - cbn in Hloop, Hlen. rewrite Hu in Hloop. cbn in Hloop.
    destruct (block_degrees_in counted !! u) as [x|] eqn:Hx.
    + cbn in Hloop. by rewrite Hloop.
    + apply lookup_ge_None in Hx. apply lookup_lt_Some in Hu. lia.
  - intros v e s s1. apply count_edge_in.
  - done.
  - cbn. by rewrite Hu.
Qed.

Lemma initialize_edge_counts_in_degree_witness :
  block_degrees_in counted_once !! 1%nat
  = Some (wrap (0 + weight_of (enters 1) (edges_from 0 one_edge))).
Proof.
  apply (initialize_edge_counts_in_degree one_edge two_vertices counted_once).
  - reflexivity.
  - reflexivity.
  - unfold in_int_range. lia.
Defined.

Lemma initialize_edge_counts_row_sums_witness :
  row_sum (blockmodel counted_once) (Z.of_nat 0) = 1.
Proof.
  apply (initialize_edge_counts_row_sums one_edge two_vertices counted_once).
  - repeat constructor.
  - intros b Hb. cbn in Hb.
    repeat (apply elem_of_cons in Hb as [->|Hb]; [cbn; lia|]).
    by apply elem_of_nil in Hb.
  - reflexivity.
  - reflexivity.
Defined.




Lemma count_edge_returns_iff vertex edge s :
  (exists s1, count_edge vertex edge s = Ok s1) <-> edge_in_bounds s (vertex, edge).
Proof.
  unfold edge_in_bounds. cbn [fst snd]. split.
  - intros (s1 & Hrun). apply count_edge_Ok in Hrun
      as (block & nb & out_old & in_old & Hb & Hn0 & Hnb & Hb0 & Hout & Hin & _).
    exists block, nb. repeat (split; [done|]).
    split; by eapply lookup_lt_Some.
  - intros (block & nb & Hb & Hn0 & Hnb & Hb0 & Hout & Hin).
    apply lookup_lt_is_Some_2 in Hout as [out_old Hout].
    apply lookup_lt_is_Some_2 in Hin as [in_old Hin].
    eexists. by eapply count_edge_Ok_intro.
Qed.

Lemma edge_in_bounds_frame (s s1 : Partition) (e : nat * (Z * Z)) :
  same_frame s s1 -> edge_in_bounds s1 e <-> edge_in_bounds s e.
Proof.
  intros (_ & Ha & Ho & Hi & _). unfold edge_in_bounds.
  by rewrite Ha, Ho, Hi.
Qed.

Lemma count_edges_returns_iff (edges : list (nat * (Z * Z))) :
  forall s,
    (exists s', count_edges edges s = Ok s') <-> Forall (edge_in_bounds s) edges.
Proof.
  unfold count_edges. induction edges as [|[v e] edges IH]; intros s.
  - split; [constructor | by exists s].
  - cbn [for_each fst snd]. rewrite Forall_cons, <- count_edge_returns_iff. split.
    + intros (s' & Hrun). apply bind_Ok in Hrun as (s1 & H1 & Hrun).
      split; [by exists s1|].
      rewrite (for_each_index (fun e s => count_edge e.1 e.2 s) edges 1 0) in Hrun.
      eapply Forall_impl; [apply IH; by exists s'|].
      intros e' He'.
      by apply (edge_in_bounds_frame s s1 e' (count_edge_same_frame _ _ _ _ H1)).
    + intros [(s1 & H1) Hrest]. rewrite H1. cbn [mbind result_bind].
      rewrite (for_each_index (fun e s => count_edge e.1 e.2 s) edges 1 0).
      apply IH. eapply Forall_impl; [exact Hrest|].
      intros e' He'.
      by apply (edge_in_bounds_frame s s1 e' (count_edge_same_frame _ _ _ _ H1)).
Qed.

(** X6. For a partition whose block ids all lie in [[0, num_blocks)], so
    that every increment of the blockmodel is at a cell inside it,
    [initialize_edge_counts] returns exactly when the out- and in-degree
    vectors have one size and every edge is in bounds: its source vertex
    and its neighbor are vertices of [block_assignment], the block of the
    source indexes [block_degrees_out], and the id of the neighbor vertex
    itself indexes [block_degrees_in]. Vertices without edges are never
    looked up. *)
Theorem initialize_edge_counts_returns_iff (neighbors : list Matrix2Column)
    (this : Partition) :
  (forall block, block ∈ block_assignment this -> 0 <= block < num_blocks this) ->
  (exists after, initialize_edge_counts neighbors this = Ok after) <->
  length (block_degrees_out this) = length (block_degrees_in this)
  /\ Forall (edge_in_bounds this) (edges_from 0 neighbors).
Proof.
  intros _.
  set (start := set_blockmodel
                  (BoostMappedMatrix_new (num_blocks this) (num_blocks this)) this).
  assert (forall e, edge_in_bounds start e <-> edge_in_bounds this e) as Hstart
    by done.
  split.
  - intros (after & (counted & Hloop & Hlen & _)%initialize_edge_counts_Ok).
    pose proof (count_edges_same_frame _ _ _ Hloop) as (_ & _ & Ho & Hi & _).
    cbn in Ho, Hi. split; [congruence|].
    eapply Forall_impl; [apply count_edges_returns_iff; by exists counted|].
    intros e. apply Hstart.
  - intros [Hlen Hbounds].
    destruct (proj2 (count_edges_returns_iff (edges_from 0 neighbors) start))
      as (counted & Hloop).
    { eapply Forall_impl; [exact Hbounds|]. intros e. apply Hstart. }
    pose proof (count_edges_same_frame _ _ _ Hloop) as (_ & _ & Ho & Hi & _).
    cbn in Ho, Hi.
    eexists. apply initialize_edge_counts_Ok. exists counted.
    repeat split; [done|congruence].
Qed.

Lemma initialize_edge_counts_returns_iff_witness :
  (exists after, initialize_edge_counts one_edge two_vertices = Ok after) <->
  length (block_degrees_out two_vertices) = length (block_degrees_in two_vertices)
  /\ Forall (edge_in_bounds two_vertices) (edges_from 0 one_edge).
Proof.
  apply initialize_edge_counts_returns_iff.
  intros block Hblock. change (block ∈ [0; 0]) in Hblock.
  change (num_blocks two_vertices) with 2.
  repeat (apply elem_of_cons in Hblock as [->|Hblock]; [lia|]).
  by apply elem_of_nil in Hblock.
Defined.

(** C2. On two vertices of block 0 joined by one edge [0 -> 1] of weight 1,
    [initialize_edge_counts] adds the weight to [block_degrees_in] at the
    neighbour's vertex id 1, not at its block 0: column 0 of the blockmodel
    sums to 1 and [block_degrees_in[0]] is 0. The out-degrees, indexed by
    block, agree with the row sums. *)
Theorem initialize_edge_counts_in_degree_by_vertex :
  exists after,
    initialize_edge_counts one_edge two_vertices = Ok after
    /\ col_sum (blockmodel after) 0 = 1 /\ col_sum (blockmodel after) 1 = 0
    /\ block_degrees_in after = [0; 1]
    /\ row_sum (blockmodel after) 0 = 1 /\ row_sum (blockmodel after) 1 = 0
    /\ block_degrees_out after = [1; 0].
Proof. eexists. repeat split; vm_compute; reflexivity. Qed.

(** C10, amended. [initialize_edge_counts] reallocates the blockmodel and
    keeps adding to the degree vectors. For a partition whose out- and
    in-degree vectors are zero before the first call, a second call in
    succession succeeds, leaves the blockmodel equal to the single-call
    one, and makes every entry of the three degree vectors twice its
    single-call value (in [int] arithmetic). *)
Theorem initialize_edge_counts_twice (neighbors : list Matrix2Column)
    (this once : Partition) :
  Forall (fun x => x = 0) (block_degrees_out this) ->
  Forall (fun x => x = 0) (block_degrees_in this) ->
  initialize_edge_counts neighbors this = Ok once ->
  exists again,
    initialize_edge_counts neighbors once = Ok again
    /\ blockmodel again = blockmodel once
    /\ block_degrees_out again = twice <$> block_degrees_out once
    /\ block_degrees_in again = twice <$> block_degrees_in once
    /\ block_degrees again = twice <$> block_degrees once.
Proof.
  intros Hzo Hzi Hrun. unfold initialize_edge_counts in Hrun.
  apply bind_Ok in Hrun as (counted & Hloop & Hrun).
  apply bind_Ok in Hrun as (degrees & Hadd & Hrun).
  inversion Hrun; subst once; clear Hrun.
  set (start := set_blockmodel
                  (BoostMappedMatrix_new (num_blocks this) (num_blocks this)) this)
    in Hloop.
  assert (same_frame start counted /\ degrees_in_range counted)
    as [(Hn & Ha & Ho & Hi & _) [Hor Hir]].
  { eapply (for_each_invariant
              (fun s => same_frame start s /\ degrees_in_range s)); [| |exact Hloop].
    - intros i edges s s' Hs Hv. unfold count_vertex in Hv.
      eapply (for_each_invariant
                (fun s => same_frame start s /\ degrees_in_range s)); [|exact Hs|exact Hv].
      intros ? ? ? ? Hs0 He. cbn beta in He.
      eapply count_edge_frame; eassumption.
    - split; [done|]. split; cbn.
      + eapply Forall_impl; [exact Hzo|]. intros ? ->. unfold in_int_range. lia.
      + eapply Forall_impl; [exact Hzi|]. intros ? ->. unfold in_int_range. lia. }
  cbn in Hn, Ha, Ho, Hi.
  set (d_out := block_degrees_out counted).
  set (d_in := block_degrees_in counted).
  set (restart :=
         set_blockmodel
           (BoostMappedMatrix_new (num_blocks (set_block_degrees degrees counted))
              (num_blocks (set_block_degrees degrees counted)))
           (set_block_degrees degrees counted)).
  assert (shifted d_out d_in start restart) as Hshift.
  { unfold shifted, start, restart, d_out, d_in. cbn.
    rewrite Hn. repeat (split; [done|]).
    split; symmetry; by apply zip_with_int_add_zero. }
  destruct (for_each_simulation (shifted d_out d_in) count_vertex) with
    (xs := neighbors) (i := 0%nat) (s := start) (t := restart) (s' := counted)
    as (recounted & Hloop2 & (Hn2 & Ha2 & Hm2 & Hlo2 & Hli2 & Ho2 & Hi2)); try done.
  { intros i edges s t s' Hst Hv. unfold count_vertex in *.
    eapply (for_each_simulation (shifted d_out d_in)); [|exact Hst|exact Hv].
    intros ? ? ? ? ? Hst0 He. cbn beta in He |- *.
    eapply count_edge_shifted; eassumption. }
  unfold vec_add in Hadd. case_bool_decide as Hlen; [|done].
  inversion Hadd; subst degrees; clear Hadd.
  fold d_out d_in in Ho2, Hi2. rewrite zip_with_int_add_diag in Ho2, Hi2.
  eexists. split.
  - unfold initialize_edge_counts. fold restart. rewrite Hloop2.
    cbn [mbind result_bind]. unfold vec_add.
    rewrite bool_decide_eq_true_2; [reflexivity|].
    by rewrite Ho2, Hi2, !length_fmap.
  - cbn. rewrite Ho2, Hi2. repeat (split; [done|]). apply zip_with_twice.
Qed.

(** From the fresh partition [two_vertices] with its one edge. *)
Lemma initialize_edge_counts_twice_witness :
  exists again,
    initialize_edge_counts one_edge counted_once = Ok again
    /\ blockmodel again = blockmodel counted_once
    /\ block_degrees_out again = twice <$> block_degrees_out counted_once
    /\ block_degrees_in again = twice <$> block_degrees_in counted_once
    /\ block_degrees again = twice <$> block_degrees counted_once.
Proof.
  apply (initialize_edge_counts_twice one_edge two_vertices counted_once).
  - repeat constructor.
  - repeat constructor.
  - reflexivity.
Defined.

(** C10, as stated, fails: from a partition counted once, one more call
    gives the out-degrees [[2; 0]] and two more calls give [[3; 0]], not
    [[4; 0]]. *)
Example initialize_edge_counts_thrice :
  initialize_edge_counts one_edge counted_once = Ok counted_twice
  /\ initialize_edge_counts one_edge counted_twice = Ok counted_thrice
  /\ block_degrees_out counted_once = [1; 0]
  /\ block_degrees_out counted_twice = [2; 0]
  /\ block_degrees_out counted_thrice = [3; 0]
  /\ twice <$> block_degrees_out counted_twice = [4; 0].
Proof. repeat split; vm_compute; reflexivity. Qed.

(** ** [clone_with_true_block_membership] *)

Lemma Zero_of_nat (n : nat) : Zero (Z.of_nat n) = Ok (replicate n 0).
Proof.
  unfold Zero, Constant. rewrite bool_decide_eq_true_2 by lia.
  by rewrite Nat2Z.id.
Qed.

Lemma mark_used_lookup (membership : list Z) :
  forall (i : nat) (uniques : list Z),
    (forall x, x ∈ membership -> 0 <= x < Z.of_nat (length uniques)) ->
    exists uniques',
      for_each mark_used i membership uniques = Ok uniques'
      /\ length uniques' = length uniques
      /\ forall block : nat,
           uniques' !! block
           = if bool_decide (Z.of_nat block ∈ membership) then Some 1
             else uniques !! block.
Proof.
  induction membership as [|x membership IH]; intros i uniques Hrange.
  - exists uniques. repeat split.
  - cbn [for_each].
    assert (mark_used i x uniques = Ok (<[Z.to_nat x := 1]> uniques)) as ->.
    { apply vec_set_Ok. split; [apply Hrange; left | done]. }
    cbn [mbind result_bind].
    destruct (IH (S i) (<[Z.to_nat x := 1]> uniques)) as (u' & Hrun & Hlen & Hlook).
    { intros y Hy. rewrite length_insert. apply Hrange. by right. }
    exists u'. split; [exact Hrun|]. split; [by rewrite Hlen, length_insert|].
    intros block. rewrite Hlook.
    destruct (decide (Z.of_nat block ∈ membership)) as [Hin|Hout].
    + rewrite !bool_decide_eq_true_2; [done | by right | done].
    + rewrite (bool_decide_eq_false_2 _ Hout).
      destruct (decide (Z.of_nat block = x)) as [<-|Hne].
      * rewrite bool_decide_eq_true_2 by left.
        rewrite Nat2Z.id. apply list_lookup_insert_eq.
        assert (Z.of_nat block ∈ Z.of_nat block :: membership) as Hin%Hrange by left.
        lia.
      * rewrite bool_decide_eq_false_2.
        -- apply list_lookup_insert_ne. intros <-.
           apply Hne. rewrite Z2Nat.id; [done|]. apply Hrange. left.
        -- intros [?|?]%elem_of_cons; done.
Qed.

Lemma mark_used_presence (membership : list Z) :
  (forall x, x ∈ membership -> 0 <= x < Z.of_nat (length membership)) ->
  for_each mark_used 0 membership (replicate (length membership) 0)
  = Ok (presence membership (length membership)).
Proof.
  intros Hrange.
  destruct (mark_used_lookup membership 0 (replicate (length membership) 0))
    as (u' & -> & Hlen & Hlook).
  { intros x Hx. rewrite length_replicate. by apply Hrange. }
  f_equal. apply list_eq. intros block. rewrite Hlook. unfold presence.
  rewrite list_lookup_fmap.
  destruct (decide (block < length membership)%nat) as [Hlt|Hge].
  - rewrite lookup_seq_lt by done. cbn [fmap option_fmap option_map Nat.add].
    case_bool_decide; [done|]. by rewrite lookup_replicate_2.
  - rewrite lookup_seq_ge by lia. cbn.
    rewrite bool_decide_eq_false_2.
    + apply lookup_replicate_None. lia.
    + intros Hin%Hrange. lia.
Qed.

Lemma count_used_filter (uniques : list Z) :
  forall (i : nat) (acc : Z),
    for_each count_used i uniques (wrap acc)
    = Ok (wrap (acc + Z.of_nat (length (filter (fun used => used = 1) uniques)))).
Proof.
  induction uniques as [|used uniques IH]; intros i acc.
  - cbn. do 2 f_equal. lia.
  - cbn [for_each]. rewrite filter_cons.
    destruct (decide (used = 1)) as [Hused|Hused].
    + assert (count_used i used (wrap acc) = Ok (wrap (acc + 1))) as ->.
      { unfold count_used, int_add. by rewrite bool_decide_eq_true_2, wrap_add_l. }
      cbn [mbind result_bind]. rewrite IH.
      do 2 f_equal. cbn [length]. lia.
    + assert (count_used i used (wrap acc) = Ok (wrap acc)) as ->.
      { unfold count_used. by rewrite bool_decide_eq_false_2. }
      cbn [mbind result_bind]. apply IH.
Qed.

Lemma filter_fmap_length {A B : Type} (f : A -> B) (P : B -> Prop)
    `{forall y, Decision (P y)} (l : list A) :
  length (filter P (f <$> l)) = length (filter (fun x => P (f x)) l).
Proof.
  induction l as [|x l IH]; [done|].
  rewrite fmap_cons, !filter_cons.
  destruct (decide (P (f x))); cbn [length]; by rewrite IH.
Qed.

Lemma presence_count (membership : list Z) (size : nat) :
  (forall x, x ∈ membership -> 0 <= x < Z.of_nat size) ->
  length (filter (fun used => used = 1) (presence membership size))
  = length (remove_dups membership).
Proof.
  intros Hrange. unfold presence.
  rewrite filter_fmap_length.
  rewrite <- (length_fmap Z.of_nat).
  apply Permutation_length, NoDup_Permutation.
  - apply NoDup_fmap_2; [apply _|]. apply NoDup_filter, NoDup_seq.
  - apply NoDup_remove_dups.
  - intros x. rewrite elem_of_remove_dups, list_elem_of_fmap. split.
    + intros (block & -> & [Hp _]%list_elem_of_filter). cbn in Hp.
      by case_bool_decide.
    + intros Hx. exists (Z.to_nat x). pose proof (Hrange x Hx).
      split; [lia|]. apply list_elem_of_filter. split.
      * cbn. rewrite Z2Nat.id by lia. by rewrite bool_decide_eq_true_2.
      * apply elem_of_seq. lia.
Qed.

Section CloneProperties.

Variable Partition4 : Z -> list Matrix2Column -> float -> Vector -> result Partition.

(** X22. For a membership vector whose values all lie in
    [[0, V)], [V] its length, [clone_with_true_block_membership] marks the
    values in a presence array over [[0, V)], counts the marked cells, and
    delegates to the constructor with [num_blocks] the number of distinct
    values of the vector (as an [int]). *)
Theorem clone_counts_distinct_memberships (neighbors : list Matrix2Column)
    (true_block_membership : Vector) (this : Partition) :
  (forall x, x ∈ true_block_membership ->
     0 <= x < Z.of_nat (length true_block_membership)) ->
  clone_with_true_block_membership Partition4 neighbors true_block_membership this
  = Partition4 (wrap (Z.of_nat (length (remove_dups true_block_membership))))
      neighbors (block_reduction_rate this) true_block_membership.
Proof.
  intros Hrange. unfold clone_with_true_block_membership.
  rewrite Zero_of_nat. cbn [mbind result_bind].
  rewrite mark_used_presence by done. cbn [mbind result_bind].
  change 0 with (wrap 0) at 1. rewrite count_used_filter.
  cbn [mbind result_bind]. by rewrite presence_count.
Qed.

End CloneProperties.

(** The ids 0, 2 and 5 of six vertices: not contiguous, inside the
    presence array, three blocks. *)
Lemma clone_counts_distinct_memberships_witness :
  clone_with_true_block_membership storing_constructor4 [] [0; 2; 2; 5; 5; 5] alternating
  = storing_constructor4 (wrap (Z.of_nat (length (remove_dups [0; 2; 2; 5; 5; 5]))))
      [] (block_reduction_rate alternating) [0; 2; 2; 5; 5; 5].
Proof.
  apply (clone_counts_distinct_memberships storing_constructor4).
  intros x Hx. cbn [length].
  repeat (apply elem_of_cons in Hx as [->|Hx]; [lia|]).
  by apply elem_of_nil in Hx.
Defined.

(** C9. The presence array [uniques] has one cell per vertex and is
    written at the block id without a test: on the membership [[3; 3; 7]]
    of three vertices (two distinct blocks, not contiguous) the first write
    [uniques[3]] is outside the three cells, whatever the constructor, the
    adjacency and the partition the call is made on. No block is counted. *)
Theorem clone_id_outside_presence_array
    (Partition4 : Z -> list Matrix2Column -> float -> Vector -> result Partition)
    (neighbors : list Matrix2Column) (this : Partition) :
  clone_with_true_block_membership Partition4 neighbors [3; 3; 7] this
  = Err (OutOfBounds "uniques" 3 3).
Proof. reflexivity. Qed.

Lemma mark_used_fault (membership : list Z) :
  forall (i : nat) (uniques : list Z) (x : Z) (rest : list Z),
    (forall y, y ∈ membership -> 0 <= y < Z.of_nat (length uniques)) ->
    ~ 0 <= x < Z.of_nat (length uniques) ->
    for_each mark_used i (membership ++ x :: rest) uniques
    = Err (OutOfBounds "uniques" x (length uniques)).
Proof.
  induction membership as [|y membership IH]; intros i uniques x rest Hrange Hx.
  - cbn [app for_each]. unfold mark_used, vec_set.
    by rewrite bool_decide_eq_false_2.
  - cbn [app for_each].
    assert (mark_used i y uniques = Ok (<[Z.to_nat y := 1]> uniques)) as ->.
    { apply vec_set_Ok. split; [apply Hrange; left | done]. }
    cbn [mbind result_bind]. rewrite IH; rewrite ?length_insert; [done| |done].
    intros z Hz. apply Hrange. by right.
Qed.

(** X7. [clone_with_true_block_membership] faults on the first membership value
    outside [[0, V)], [V] the length of the vector, at the write of the
    presence array: it does not reach the constructor. *)
Theorem clone_faults_out_of_range
    (Partition4 : Z -> list Matrix2Column -> float -> Vector -> result Partition)
    (neighbors : list Matrix2Column) (inside : list Z) (x : Z) (rest : list Z)
    (this : Partition) :
  (forall y, y ∈ inside -> 0 <= y < Z.of_nat (length (inside ++ x :: rest))) ->
  ~ 0 <= x < Z.of_nat (length (inside ++ x :: rest)) ->
  clone_with_true_block_membership Partition4 neighbors (inside ++ x :: rest) this
  = Err (OutOfBounds "uniques" x (length (inside ++ x :: rest))).
Proof.
  intros Hrange Hx. unfold clone_with_true_block_membership.
  rewrite Zero_of_nat. cbn [mbind result_bind].
  rewrite mark_used_fault; rewrite ?length_replicate; done.
Qed.

Lemma clone_faults_out_of_range_witness :
  clone_with_true_block_membership storing_constructor4 [] ([0; 1] ++ 7 :: [1])
    alternating
  = Err (OutOfBounds "uniques" 7 (length ([0; 1] ++ 7 :: [1]))).
Proof.
  apply clone_faults_out_of_range.
  - intros y Hy. cbn.
    repeat (apply elem_of_cons in Hy as [->|Hy]; [lia|]).
    by apply elem_of_nil in Hy.
  - cbn. lia.
Defined.

(** ** [copy] *)

Lemma allocate_fresh (h : gmap nat buffer) (b : buffer) :
  exists a, allocate h b = (a, <[a := b]> h) /\ h !! a = None.
Proof.
  exists (fresh (dom h)). split; [done|].
  apply not_elem_of_dom, is_fresh.
Qed.

Lemma value_of_Some (h : gmap nat buffer) (o : PartitionObject) (p : Partition) :
  value_of h o = Some p <->
  h !! obj_block_assignment o = Some (IntBuffer (block_assignment p))
  /\ h !! obj_blockmodel o = Some (MapBuffer (blockmodel p))
  /\ h !! obj_block_degrees_out o = Some (IntBuffer (block_degrees_out p))
  /\ h !! obj_block_degrees_in o = Some (IntBuffer (block_degrees_in p))
  /\ h !! obj_block_degrees o = Some (IntBuffer (block_degrees p))
  /\ obj_num_blocks o = num_blocks p
  /\ obj_block_reduction_rate o = block_reduction_rate p
  /\ obj_overall_entropy o = overall_entropy p
  /\ obj_num_blocks_to_merge o = num_blocks_to_merge p.
Proof.
  unfold value_of, read_vector, read_matrix. split.
  - intros H. repeat case_match; simplify_option_eq. done.
  - intros (-> & -> & -> & -> & -> & -> & -> & -> & ->). cbn. by destruct p.
Qed.

Lemma matrix_copy_same (m : BoostMappedMatrix) : matrix_copy m = m.
Proof. by destruct m. Qed.

Lemma copy_vector_read (h : gmap nat buffer) (source : nat) (v : list Z) :
  h !! source = Some (IntBuffer v) ->
  copy_vector h source = Some (allocate h (IntBuffer v)).
Proof. intros H. unfold copy_vector, read_vector. by rewrite H. Qed.

Lemma copy_matrix_read (h : gmap nat buffer) (source : nat) (m : BoostMappedMatrix) :
  h !! source = Some (MapBuffer m) ->
  copy_matrix h source = Some (allocate h (MapBuffer (matrix_copy m))).
Proof. intros H. unfold copy_matrix, read_matrix. by rewrite H. Qed.

(** After an allocation the buffers in use are where they were, and the new
    address is none of theirs. *)
Ltac after_allocate h a b Ha :=
  repeat match goal with
  | Hx : h !! ?x = Some ?v |- _ =>
      assert (a <> x) by (intros ->; rewrite Ha in Hx; discriminate);
      assert (<[a := b]> h !! x = Some v) by (rewrite lookup_insert_ne; done);
      clear Hx
  end;
  assert (<[a := b]> h !! a = Some b) by apply lookup_insert_eq;
  clear Ha.

Ltac allocate_step :=
  match goal with
  | |- context [allocate ?h ?b] =>
      let a := fresh "a" in
      let Ha := fresh "Ha" in
      let h' := fresh "h" in
      destruct (allocate_fresh h b) as (a & -> & Ha);
      after_allocate h a b Ha;
      set (h' := <[a := b]> h) in *; clearbody h'
  end.

(** After a release the other buffers in use are where they were. *)
Ltac after_release :=
  match goal with
  | |- context [release ?c ?h] =>
      change (release c h) with (delete c h);
      repeat match goal with
      | Hx : h !! ?x = Some ?v |- _ =>
          first
            [ assert (delete c h !! x = Some v)
                by (rewrite lookup_delete_ne;
                    [exact Hx | first [assumption | apply not_eq_sym; assumption]]);
              clear Hx
            | clear Hx ]
      end;
      let h' := fresh "h" in
      set (h' := delete c h) in *; clearbody h'
  end.

Ltac copy_member :=
  match goal with
  | Hx : ?h !! ?x = Some (IntBuffer ?v) |- context [copy_vector ?h ?x] =>
      rewrite (copy_vector_read h x v Hx)
  | Hx : ?h !! ?x = Some (MapBuffer ?m) |- context [copy_matrix ?h ?x] =>
      rewrite (copy_matrix_read h x m Hx)
  end;
  allocate_step; cbn [mbind option_bind]; cbn beta iota;
  cbn [obj_block_assignment obj_blockmodel obj_block_degrees_out
       obj_block_degrees_in obj_block_degrees
       set_obj_block_assignment set_obj_blockmodel set_obj_block_degrees_out
       set_obj_block_degrees_in set_obj_block_degrees set_obj_overall_entropy];
  after_release.

Section CopyProperties.

Variable Partition3 : Z -> list Matrix2Column -> float -> result Partition.

Hypothesis Partition3_stores :
  forall (blocks : Z) (rate : float),
    exists initial,
      Partition3 blocks [] rate = Ok initial
      /\ num_blocks initial = blocks
      /\ block_reduction_rate initial = rate.

(** C7. For a constructor that stores the block count and the reduction
    rate it is given, [copy()] of a partition object returns an object
    whose value is the original's with [num_blocks_to_merge] reset to zero:
    the same [block_assignment], [blockmodel], [block_degrees_out],
    [block_degrees_in], [block_degrees], [num_blocks],
    [block_reduction_rate] and [overall_entropy]. The original keeps its
    value, the two objects reach no common buffer, and a write to a buffer
    of one leaves the value of the other as it is. *)
Theorem copy_is_deep (h : gmap nat buffer) (this : PartitionObject) (p : Partition) :
  value_of h this = Some p ->
  exists partition_copy h',
    copy Partition3 h this = Some (partition_copy, h')
    /\ value_of h' partition_copy = Some (set_num_blocks_to_merge 0 p)
    /\ value_of h' this = Some p
    /\ (forall a, a ∈ footprint partition_copy -> a ∉ footprint this)
    /\ (forall a b, a ∈ footprint partition_copy ->
          value_of (<[a := b]> h') this = Some p)
    /\ (forall a b, a ∈ footprint this ->
          value_of (<[a := b]> h') partition_copy
          = Some (set_num_blocks_to_merge 0 p)).
Proof.
  intros Hvalue.
  apply value_of_Some in Hvalue
    as (Ht1 & Ht2 & Ht3 & Ht4 & Ht5 & Hnb & Hrate & Hent & Hmerge).
  destruct (Partition3_stores (obj_num_blocks this) (obj_block_reduction_rate this))
    as (initial & Hctor & Hinb & Hirate).
  unfold copy. rewrite Hctor. unfold construct.
  do 5 allocate_step.
  cbn beta iota. do 5 copy_member.
  eexists _, _. split; [reflexivity|].
  assert (forall h', 
            h' !! obj_block_assignment this = Some (IntBuffer (block_assignment p)) ->
            h' !! obj_blockmodel this = Some (MapBuffer (blockmodel p)) ->
            h' !! obj_block_degrees_out this = Some (IntBuffer (block_degrees_out p)) ->
            h' !! obj_block_degrees_in this = Some (IntBuffer (block_degrees_in p)) ->
            h' !! obj_block_degrees this = Some (IntBuffer (block_degrees p)) ->
            value_of h' this = Some p) as Hthis.
  { intros. by apply value_of_Some. }
  match goal with
  | |- value_of ?heap ?o = _ /\ _ =>
      assert (forall h',
                h' !! obj_block_assignment o = heap !! obj_block_assignment o ->
                h' !! obj_blockmodel o = heap !! obj_blockmodel o ->
                h' !! obj_block_degrees_out o = heap !! obj_block_degrees_out o ->
                h' !! obj_block_degrees_in o = heap !! obj_block_degrees_in o ->
                h' !! obj_block_degrees o = heap !! obj_block_degrees o ->
                value_of h' o = Some (set_num_blocks_to_merge 0 p)) as Hcopy
  end.
  { cbn. intros h' E1 E2 E3 E4 E5. apply value_of_Some. cbn.
    rewrite E1, E2, E3, E4, E5. rewrite matrix_copy_same in *.
    repeat (split; [done|]). repeat split; congruence. }
  split; [by apply Hcopy|]. split; [by apply Hthis|].
  cbn [footprint obj_block_assignment obj_blockmodel obj_block_degrees_out
       obj_block_degrees_in obj_block_degrees
       set_obj_block_assignment set_obj_blockmodel set_obj_block_degrees_out
       set_obj_block_degrees_in set_obj_block_degrees set_obj_overall_entropy
       set_obj_num_blocks_to_merge] in *.
  split; [|split].
  - intros x Hx Ht.
    repeat (apply elem_of_cons in Hx as [->|Hx]);
      [..|by apply elem_of_nil in Hx];
      repeat (apply elem_of_cons in Ht as [Ht|Ht]; [done|]);
      by apply elem_of_nil in Ht.
  - intros x b Hx.
    repeat (apply elem_of_cons in Hx as [->|Hx]);
      [..|by apply elem_of_nil in Hx];
      apply Hthis; by rewrite lookup_insert_ne.
  - intros x b Hx.
    repeat (apply elem_of_cons in Hx as [->|Hx]);
      [..|by apply elem_of_nil in Hx];
      apply Hcopy; apply lookup_insert_ne; by apply not_eq_sym.
Qed.

End CopyProperties.

(** The copy of the one object of [one_object]. *)
Lemma copy_is_deep_witness :
  exists partition_copy h',
    copy storing_constructor3 one_object.2 one_object.1 = Some (partition_copy, h')
    /\ value_of h' partition_copy
       = Some (set_num_blocks_to_merge 0 (fresh_partition 2 [0; 1; 0] 1))
    /\ value_of h' one_object.1 = Some (fresh_partition 2 [0; 1; 0] 1)
    /\ (forall a, a ∈ footprint partition_copy -> a ∉ footprint one_object.1)
    /\ (forall a b, a ∈ footprint partition_copy ->
          value_of (<[a := b]> h') one_object.1
          = Some (fresh_partition 2 [0; 1; 0] 1))
    /\ (forall a b, a ∈ footprint one_object.1 ->
          value_of (<[a := b]> h') partition_copy
          = Some (set_num_blocks_to_merge 0 (fresh_partition 2 [0; 1; 0] 1))).
Proof.
  apply (copy_is_deep storing_constructor3).
  - intros blocks rate. eexists. repeat split.
  - vm_compute. reflexivity.
Defined.

Section CopyFrame.

Variable Partition3 : Z -> list Matrix2Column -> float -> result Partition.

Hypothesis Partition3_stores :
  forall (blocks : Z) (rate : float),
    exists initial,
      Partition3 blocks [] rate = Ok initial
      /\ num_blocks initial = blocks
      /\ block_reduction_rate initial = rate.

(** X8. [copy()] writes to no buffer that was allocated before the call: every
    such buffer, of the original or of any other object, holds what it held,
    and none of them is a buffer of the copy. *)
Theorem copy_keeps_heap (h : gmap nat buffer) (this : PartitionObject)
    (p : Partition) (a : nat) (b : buffer) :
  value_of h this = Some p ->
  h !! a = Some b ->
  exists partition_copy h',
    copy Partition3 h this = Some (partition_copy, h')
    /\ h' !! a = Some b
    /\ a ∉ footprint partition_copy.
Proof.
  intros Hvalue Hab.
  apply value_of_Some in Hvalue
    as (Ht1 & Ht2 & Ht3 & Ht4 & Ht5 & Hnb & Hrate & Hent & Hmerge).
  destruct (Partition3_stores (obj_num_blocks this) (obj_block_reduction_rate this))
    as (initial & Hctor & Hinb & Hirate).
  unfold copy. rewrite Hctor. unfold construct.
  do 5 allocate_step.
  cbn beta iota. do 5 copy_member.
  eexists _, _. split; [reflexivity|]. split; [assumption|].
  cbn [footprint obj_block_assignment obj_blockmodel obj_block_degrees_out
       obj_block_degrees_in obj_block_degrees
       set_obj_block_assignment set_obj_blockmodel set_obj_block_degrees_out
       set_obj_block_degrees_in set_obj_block_degrees set_obj_overall_entropy
       set_obj_num_blocks_to_merge].
  intros Hin.
  repeat (apply elem_of_cons in Hin as [Hin|Hin]; [by symmetry in Hin|]).
  by apply elem_of_nil in Hin.
Qed.

End CopyFrame.

Lemma copy_keeps_heap_witness :
  exists partition_copy h',
    copy storing_constructor3 one_object.2 one_object.1 = Some (partition_copy, h')
    /\ h' !! 0%nat = Some (IntBuffer [0; 1; 0])
    /\ 0%nat ∉ footprint partition_copy.
Proof.
  apply (copy_keeps_heap storing_constructor3) with (p := fresh_partition 2 [0; 1; 0] 1).
  - intros blocks rate. eexists. repeat split.
  - vm_compute. reflexivity.
  - vm_compute. reflexivity.
Defined.

(** ** [from_sample] *)

Lemma assign_sampled_length sample i item (assignment assignment' : list Z) :
  assign_sampled sample i item assignment = Ok assignment' ->
  length assignment' = length assignment.
Proof.
  unfold assign_sampled. intros H.
  apply bind_Ok in H as (block & _ & H). by apply vec_set_length in H.
Qed.

Lemma assign_fresh_length vertex (s s' : list Z * Z) :
  assign_fresh vertex s = Ok s' -> length s'.1 = length s.1.
Proof.
  unfold assign_fresh. intros H.
  apply bind_Ok in H as (block & _ & H).
  case_bool_decide; [by inversion H|].
  apply bind_Ok in H as (assignment & Hset & H).
  inversion H; subst; cbn. by apply vec_set_length in Hset.
Qed.

Lemma assign_most_connected_length blocks vertex edges
    (assignment assignment' : list Z) :
  assign_most_connected blocks vertex edges assignment = Ok assignment' ->
  length assignment' = length assignment.
Proof.
  unfold assign_most_connected. intros H.
  apply bind_Ok in H as (block & _ & H).
  case_bool_decide; [by inversion H|].
  apply bind_Ok in H as (counts & _ & H).
  apply bind_Ok in H as (counts' & _ & H).
  apply bind_Ok in H as (new_block & _ & H).
  by apply vec_set_length in H.
Qed.

(** X9. Whenever [from_sample] reaches the constructor, the assignment it
    passes has [num_blocks] entries, whatever the number of vertices. *)
Lemma from_sample_assignment_length
    (Partition4 : Z -> list Matrix2Column -> float -> Vector -> result Partition)
    (blocks : Z) (neighbors : list Matrix2Column) (sample : Vector)
    (mapping : list (Z * Z)) (rate : float) (p : Partition) :
  from_sample Partition4 blocks neighbors sample mapping rate = Ok p ->
  exists assignment,
    length assignment = Z.to_nat blocks
    /\ Partition4 blocks neighbors rate assignment = Ok p.
Proof.
  unfold from_sample. intros H.
  apply bind_Ok in H as (a0 & Hconst & H).
  apply bind_Ok in H as (a1 & Hsampled & H).
  apply bind_Ok in H as (a2 & Hfresh & H).
  apply bind_Ok in H as (a3 & Hconnected & H).
  exists a3. split; [|done].
  unfold Constant in Hconst. case_bool_decide; [|done].
  inversion Hconst; subst a0; clear Hconst.
  assert (length a1 = Z.to_nat blocks) as H1.
  { eapply (for_each_invariant (fun v : list Z => length v = Z.to_nat blocks));
      [| |exact Hsampled]; [|apply length_replicate].
    intros i item s s' Hs Hstep. by rewrite (assign_sampled_length _ _ _ _ _ Hstep). }
  assert (length a2.1 = Z.to_nat blocks) as H2.
  { eapply (for_range_invariant
              (fun s : list Z * Z => length s.1 = Z.to_nat blocks));
      [| |exact Hfresh]; [|done].
    intros i s s' Hs Hstep. by rewrite (assign_fresh_length _ _ _ Hstep). }
  eapply (for_each_invariant (fun v : list Z => length v = Z.to_nat blocks));
    [| |exact Hconnected]; [|done].
  intros i edges s s' Hs Hstep.
  by rewrite (assign_most_connected_length _ _ _ _ _ Hstep).
Qed.

Lemma from_sample_assignment_length_witness :
  exists assignment,
    length assignment = Z.to_nat 2
    /\ storing_constructor4 2 [[]; [(0, 1)]] 0.5%float assignment
       = storing_constructor4 2 [[]; [(0, 1)]] 0.5%float [1; 1].
Proof.
  apply (from_sample_assignment_length storing_constructor4 2 [[]; [(0, 1)]]
           [1] [(0, 0)]).
  reflexivity.
Defined.

Lemma from_sample_Ok
    (Partition4 : Z -> list Matrix2Column -> float -> Vector -> result Partition)
    (blocks : Z) (neighbors : list Matrix2Column) (sample : Vector)
    (mapping : list (Z * Z)) (rate : float) (p : Partition) :
  from_sample Partition4 blocks neighbors sample mapping rate = Ok p ->
  exists sampled fresh assignment,
    0 <= blocks
    /\ for_each (assign_sampled sample) 0 mapping (replicate (Z.to_nat blocks) (-1))
       = Ok sampled
    /\ for_range assign_fresh 0 (length neighbors) (sampled, blocks) = Ok fresh
    /\ for_each (assign_most_connected blocks) 0 neighbors fresh.1 = Ok assignment
    /\ Partition4 blocks neighbors rate assignment = Ok p.
Proof.
  unfold from_sample. intros H.
  apply bind_Ok in H as (a0 & Hconst & H).
  apply bind_Ok in H as (a1 & Hsampled & H).
  apply bind_Ok in H as (a2 & Hfresh & H).
  apply bind_Ok in H as (a3 & Hconnected & H).
  unfold Constant in Hconst. case_bool_decide; [|done].
  inversion Hconst; subst a0. by exists a1, a2, a3.
Qed.

Lemma assign_fresh_reads :
  forall (count first : nat) (s s' : list Z * Z),
    for_range assign_fresh first count s = Ok s' ->
    count = 0%nat \/ (first + count <= length s.1)%nat.
Proof.
  induction count as [|count IH]; intros first s s' Hrun; [by left|right].
  cbn [for_range] in Hrun. apply bind_Ok in Hrun as (s1 & Hstep & Hrun).
  pose proof (assign_fresh_length _ _ _ Hstep) as Hlen.
  unfold assign_fresh in Hstep. apply bind_Ok in Hstep as (block & Hget & _).
  apply vec_get_Ok in Hget as [_ Hget%lookup_lt_Some]. rewrite Nat2Z.id in Hget.
  apply IH in Hrun as [->|Hrun]; lia.
Qed.

(** X10. [from_sample] never returns a partition for a graph with more vertices
    than blocks: the assignment has [num_blocks] entries and the loop over
    the vertices reads one entry per vertex. *)
Theorem from_sample_more_vertices_than_blocks
    (Partition4 : Z -> list Matrix2Column -> float -> Vector -> result Partition)
    (blocks : Z) (neighbors : list Matrix2Column) (sample : Vector)
    (mapping : list (Z * Z)) (rate : float) :
  blocks < Z.of_nat (length neighbors) ->
  exists e, from_sample Partition4 blocks neighbors sample mapping rate = Err e.
Proof.
  intros Hmore.
  destruct (from_sample Partition4 blocks neighbors sample mapping rate)
    as [p|e] eqn:Hrun; [exfalso|by exists e].
  apply from_sample_Ok in Hrun
    as (sampled & fresh & assignment & Hblocks & Hsampled & Hfresh & _).
  assert (length sampled = Z.to_nat blocks) as Hlen.
  { eapply (for_each_invariant (fun v : list Z => length v = Z.to_nat blocks));
      [| |exact Hsampled]; [|apply length_replicate].
    intros i item s s' Hs Hstep. by rewrite (assign_sampled_length _ _ _ _ _ Hstep). }
  apply assign_fresh_reads in Hfresh as [Hnone|Hread]; cbn [fst] in *; lia.
Qed.

Lemma from_sample_more_vertices_than_blocks_witness :
  exists e,
    from_sample storing_constructor4 2 [[(1, 1)]; [(2, 1)]; []] [0; 1]
      [(0, 0); (1, 1)] 0.5%float = Err e.
Proof. apply from_sample_more_vertices_than_blocks. cbn. lia. Defined.

Lemma for_each_indexed {A St : Type} (I : nat -> St -> Prop)
    (body : nat -> A -> St -> result St) :
  forall xs i s s',
    (forall j x t t',
        xs !! (j - i)%nat = Some x -> (i <= j)%nat ->
        I j t -> body j x t = Ok t' -> I (S j) t') ->
    I i s -> for_each body i xs s = Ok s' -> I (i + length xs)%nat s'.
Proof.
  induction xs as [|x xs IH]; intros i s s' Hbody Hs Hrun.
  - cbn in Hrun. inversion Hrun; subst. by rewrite Nat.add_0_r.
  - cbn [for_each] in Hrun. apply bind_Ok in Hrun as (s1 & Hstep & Hrest).
    cbn [length]. replace (i + S (length xs))%nat with (S i + length xs)%nat by lia.
    eapply IH; [| |exact Hrest].
    + intros j y t t' Hy Hj. apply Hbody; [|lia].
      replace (j - i)%nat with (S (j - S i)) by lia. exact Hy.
    + eapply Hbody; [| |exact Hs|exact Hstep]; [|lia].
      by rewrite Nat.sub_diag.
Qed.

Lemma for_range_indexed {St : Type} (I : nat -> St -> Prop)
    (body : nat -> St -> result St) :
  forall count first s s',
    (forall j t t', (first <= j < first + count)%nat ->
        I j t -> body j t = Ok t' -> I (S j) t') ->
    I first s -> for_range body first count s = Ok s' -> I (first + count)%nat s'.
Proof.
  induction count as [|count IH]; intros first s s' Hbody Hs Hrun.
  - cbn in Hrun. inversion Hrun; subst. by rewrite Nat.add_0_r.
  - cbn [for_range] in Hrun. apply bind_Ok in Hrun as (s1 & Hstep & Hrest).
    replace (first + S count)%nat with (S first + count)%nat by lia.
    eapply IH; [| |exact Hrest].
    + intros j t t' Hj. apply Hbody. lia.
    + eapply Hbody; [|exact Hs|exact Hstep]. lia.
Qed.

Lemma assign_sampled_Ok sample i item (a a' : list Z) :
  assign_sampled sample i item a = Ok a' ->
  exists block,
    sample !! Z.to_nat item.2 = Some block
    /\ 0 <= item.1 < Z.of_nat (length a)
    /\ a' = <[Z.to_nat item.1 := block]> a.
Proof.
  unfold assign_sampled. intros H.
  apply bind_Ok in H as (block & [_ Hget]%vec_get_Ok & [Hin ->]%vec_set_Ok).
  by exists block.
Qed.

Lemma assign_fresh_Ok vertex (s s' : list Z * Z) :
  assign_fresh vertex s = Ok s' ->
  exists block,
    s.1 !! vertex = Some block
    /\ (0 <= block /\ s' = s
        \/ block < 0 /\ s' = (<[vertex := s.2]> s.1, int_add s.2 1)).
Proof.
  unfold assign_fresh. intros H.
  apply bind_Ok in H as (block & [_ Hget]%vec_get_Ok & H).
  rewrite Nat2Z.id in Hget. exists block. split; [done|].
  case_bool_decide.
  - left. by inversion H.
  - right. apply bind_Ok in H as (a & [_ ->]%vec_set_Ok & H).
    rewrite Nat2Z.id in H. inversion H. split; [lia|done].
Qed.

Lemma tally_neighbor_length blocks a i edge (counts counts' : list Z) :
  tally_neighbor blocks a i edge counts = Ok counts' ->
  length counts' = length counts.
Proof.
  unfold tally_neighbor. intros H.
  apply bind_Ok in H as (block & _ & H).
  case_bool_decide; [|by inversion H].
  apply bind_Ok in H as (count & _ & H). by apply vec_set_length in H.
Qed.

Lemma first_max_range (v : list Z) :
  forall best_index best i,
    0 <= best_index < i ->
    0 <= first_max best_index best i v < i + Z.of_nat (length v).
Proof.
  induction v as [|x rest IH]; intros best_index best i H; cbn [first_max length].
  - lia.
  - case_bool_decide.
    + specialize (IH i x (i + 1)). lia.
    + specialize (IH best_index best (i + 1)). lia.
Qed.

Lemma maxCoeff_range (v : list Z) index :
  maxCoeff v = Ok index -> 0 <= index < Z.of_nat (length v).
Proof.
  destruct v as [|x rest]; [done|]. cbn [maxCoeff length]. intros [= <-].
  pose proof (first_max_range rest 0 x 1). lia.
Qed.

Lemma assign_most_connected_Ok blocks vertex edges (a a' : list Z) :
  assign_most_connected blocks vertex edges a = Ok a' ->
  exists block,
    a !! vertex = Some block
    /\ (block < blocks /\ a' = a
        \/ blocks <= block
           /\ exists counts new_block,
                for_each (tally_neighbor blocks a) 0 edges
                  (replicate (Z.to_nat blocks) 0) = Ok counts
                /\ maxCoeff counts = Ok new_block
                /\ 0 <= new_block < blocks
                /\ a' = <[vertex := new_block]> a).
Proof.
  unfold assign_most_connected. intros H.
  apply bind_Ok in H as (block & [_ Hget]%vec_get_Ok & H).
  rewrite Nat2Z.id in Hget. exists block. split; [done|].
  case_bool_decide.
  - left. by inversion H.
  - right. split; [lia|].
    apply bind_Ok in H as (zero & Hzero & H).
    apply bind_Ok in H as (counts & Htally & H).
    apply bind_Ok in H as (new_block & Hmax & [_ ->]%vec_set_Ok).
    rewrite Nat2Z.id.
    unfold Zero, Constant in Hzero. case_bool_decide; [|done].
    inversion Hzero; subst zero.
    exists counts, new_block. repeat split; try done.
    + apply maxCoeff_range in Hmax. lia.
    + apply maxCoeff_range in Hmax.
      assert (length counts = Z.to_nat blocks) as Hlen; [|lia].
      eapply (for_each_invariant (fun v : list Z => length v = Z.to_nat blocks));
        [| |exact Htally]; [|apply length_replicate].
      intros i edge s s' Hs Hstep.
      by rewrite (tally_neighbor_length _ _ _ _ _ _ Hstep).
Qed.

Lemma assign_fresh_nonnegative (blocks : Z) (count : nat) (s s' : list Z * Z) :
  0 <= blocks ->
  blocks + Z.of_nat count < 2 ^ 31 ->
  s.2 = blocks ->
  for_range assign_fresh 0 count s = Ok s' ->
  forall u b, (u < count)%nat -> s'.1 !! u = Some b -> 0 <= b.
Proof.
  intros Hblocks Hsmall Hnext Hrun.
  pose (I := fun (i : nat) (t : list Z * Z) =>
               blocks <= t.2 <= blocks + Z.of_nat i
               /\ forall u b, (u < i)%nat -> t.1 !! u = Some b -> 0 <= b).
  assert (I (0 + count)%nat s') as [_ H]; [|exact H].
  eapply (for_range_indexed I); [| |exact Hrun].
  - intros j t t' Hj [Hbound Hbelow] Hstep.
    apply assign_fresh_Ok in Hstep as (block & Hget & [[Hblock ->]|[Hblock ->]]).
    + split; [lia|]. intros u b Hu Hb.
      destruct (decide (u = j)) as [->|Hne]; [|apply (Hbelow u); [lia|done]].
      rewrite Hget in Hb. inversion Hb. by subst.
    + cbn [fst snd]. unfold int_add. rewrite wrap_small by (unfold in_int_range; lia).
      split; cbn [fst snd]; [lia|]. intros u b Hu Hb.
      apply list_lookup_insert_Some in Hb as [(_ & <- & _)|[Hne Hb]]; [lia|].
      apply (Hbelow u); [lia|done].
  - split; [lia|]. intros u b Hu. lia.
Qed.

(** X11. When [from_sample] reaches the constructor and the fresh block numbers
    of the second loop stay below [2^31], every vertex of the graph has a
    block in [[0, num_blocks)]: the third loop leaves no temporary block. *)
Theorem from_sample_blocks_in_range
    (Partition4 : Z -> list Matrix2Column -> float -> Vector -> result Partition)
    (blocks : Z) (neighbors : list Matrix2Column) (sample : Vector)
    (mapping : list (Z * Z)) (rate : float) (p : Partition) :
  from_sample Partition4 blocks neighbors sample mapping rate = Ok p ->
  blocks + Z.of_nat (length neighbors) < 2 ^ 31 ->
  exists assignment,
    Partition4 blocks neighbors rate assignment = Ok p
    /\ forall vertex, (vertex < length neighbors)%nat ->
         exists block, assignment !! vertex = Some block /\ 0 <= block < blocks.
Proof.
  intros Hrun Hsmall.
  apply from_sample_Ok in Hrun
    as (sampled & fresh & assignment & Hblocks & Hsampled & Hfresh & Hconnected & Hp).
  exists assignment. split; [done|].
  pose proof (assign_fresh_nonnegative blocks _ (sampled, blocks) _
                Hblocks Hsmall eq_refl Hfresh) as Hnonneg.
  pose (I := fun (i : nat) (a : list Z) =>
               (forall u b, (u < length neighbors)%nat -> a !! u = Some b -> 0 <= b)
               /\ forall u, (u < i)%nat ->
                    exists b, a !! u = Some b /\ 0 <= b < blocks).
  assert (I (0 + length neighbors)%nat assignment) as [_ H]; [|exact H].
  eapply (for_each_indexed I); [| |exact Hconnected]; [|split; [done|lia]].
  intros j edges a a' Hedges _ [Hall Hbelow] Hstep.
  apply lookup_lt_Some in Hedges. rewrite Nat.sub_0_r in Hedges.
  apply assign_most_connected_Ok in Hstep
    as (block & Hget & [[Hblock ->]|[Hblock (counts & new & _ & _ & Hnew & ->)]]).
  - split; [done|]. intros u Hu.
    destruct (decide (u = j)) as [->|Hne]; [|apply Hbelow; lia].
    exists block. split; [done|]. split; [by eapply Hall|done].
  - split.
    + intros u b Hu Hb.
      apply list_lookup_insert_Some in Hb as [(_ & <- & _)|[_ Hb]]; [lia|].
      by eapply Hall.
    + intros u Hu. destruct (decide (u = j)) as [->|Hne].
      * exists new. split; [|done].
        apply list_lookup_insert_eq. by eapply lookup_lt_Some.
      * rewrite list_lookup_insert_ne by done. apply Hbelow. lia.
Qed.

Lemma from_sample_blocks_in_range_witness :
  exists assignment,
    storing_constructor4 2 [[]; [(0, 1)]] 0.5%float assignment
    = storing_constructor4 2 [[]; [(0, 1)]] 0.5%float [1; 1]
    /\ forall vertex, (vertex < length [[]; [(0, 1)]])%nat ->
         exists block, assignment !! vertex = Some block /\ 0 <= block < 2.
Proof.
  apply (from_sample_blocks_in_range storing_constructor4 2 [[]; [(0, 1)]]
           [1] [(0, 0)]).
  - reflexivity.
  - cbn. lia.
Defined.

Lemma assign_sampled_untouched sample (k : Z) :
  forall items i (a a' : list Z),
    for_each (assign_sampled sample) i items a = Ok a' ->
    (forall item, item ∈ items -> item.1 <> k) ->
    0 <= k ->
    a' !! Z.to_nat k = a !! Z.to_nat k.
Proof.
  induction items as [|item items IH]; intros i a a' Hrun Hother Hk.
  - cbn in Hrun. by inversion Hrun.
  - cbn [for_each] in Hrun. apply bind_Ok in Hrun as (a1 & Hstep & Hrun).
    apply assign_sampled_Ok in Hstep as (block & _ & Hin & ->).
    rewrite (IH _ _ _ Hrun); [| |done].
    + apply list_lookup_insert_ne.
      assert (item.1 <> k) by (apply Hother; left). lia.
    + intros other Hin'. apply Hother. by right.
Qed.

Lemma assign_sampled_written sample (k j : Z) :
  forall items i (a a' : list Z),
    for_each (assign_sampled sample) i items a = Ok a' ->
    NoDup items.*1 ->
    (k, j) ∈ items ->
    exists block,
      sample !! Z.to_nat j = Some block /\ a' !! Z.to_nat k = Some block.
Proof.
  induction items as [|item items IH]; intros i a a' Hrun Hkeys Hin.
  - by apply elem_of_nil in Hin.
  - cbn [for_each] in Hrun. apply bind_Ok in Hrun as (a1 & Hstep & Hrun).
    rewrite fmap_cons in Hkeys. apply NoDup_cons in Hkeys as [Hfirst Hkeys].
    apply elem_of_cons in Hin as [<-|Hin]; [|by eapply IH].
    apply assign_sampled_Ok in Hstep as (block & Hget & Hbound & ->).
    cbn [fst snd] in *. exists block. split; [done|].
    rewrite (assign_sampled_untouched _ k _ _ _ _ Hrun); [| |lia].
    + apply list_lookup_insert_eq. lia.
    + intros other Hother Hsame. apply Hfirst.
      apply list_elem_of_fmap. exists other. by split.
Qed.

Lemma assign_fresh_keeps (u : nat) (b : Z) :
  0 <= b ->
  forall count first (s s' : list Z * Z),
    s.1 !! u = Some b ->
    for_range assign_fresh first count s = Ok s' ->
    s'.1 !! u = Some b.
Proof.
  intros Hb.
  apply (for_range_invariant (fun s : list Z * Z => s.1 !! u = Some b)).
  intros i s s' Hs Hstep.
  apply assign_fresh_Ok in Hstep as (block & Hget & [[_ ->]|[Hblock ->]]); [done|].
  cbn [fst]. rewrite list_lookup_insert_ne; [done|].
  intros ->. rewrite Hget in Hs. inversion Hs. lia.
Qed.

Lemma assign_most_connected_keeps (blocks : Z) (u : nat) (b : Z) :
  b < blocks ->
  forall edges first (a a' : list Z),
    a !! u = Some b ->
    for_each (assign_most_connected blocks) first edges a = Ok a' ->
    a' !! u = Some b.
Proof.
  intros Hb.
  apply (for_each_invariant (fun a : list Z => a !! u = Some b)).
  intros i edges a a' Ha Hstep.
  apply assign_most_connected_Ok in Hstep
    as (block & Hget & [[_ ->]|[Hblock (counts & new & _ & _ & _ & ->)]]); [done|].
  rewrite list_lookup_insert_ne; [done|].
  intros ->. rewrite Hget in Ha. inversion Ha. lia.
Qed.

(** X12. A sampled vertex keeps the block it has in the sample: when the items
    of the mapping have distinct keys and the sample's block of an item lies
    in [[0, num_blocks)], neither the second nor the third loop rewrites the
    entry the first loop stored. *)
Theorem from_sample_keeps_sampled
    (Partition4 : Z -> list Matrix2Column -> float -> Vector -> result Partition)
    (blocks : Z) (neighbors : list Matrix2Column) (sample : Vector)
    (mapping : list (Z * Z)) (rate : float) (p : Partition)
    (vertex sampled_vertex block : Z) :
  from_sample Partition4 blocks neighbors sample mapping rate = Ok p ->
  NoDup mapping.*1 ->
  (vertex, sampled_vertex) ∈ mapping ->
  sample !! Z.to_nat sampled_vertex = Some block ->
  0 <= block < blocks ->
  exists assignment,
    Partition4 blocks neighbors rate assignment = Ok p
    /\ assignment !! Z.to_nat vertex = Some block.
Proof.
  intros Hrun Hkeys Hin Hsample Hblock.
  apply from_sample_Ok in Hrun
    as (sampled & fresh & assignment & Hblocks & Hsampled & Hfresh & Hconnected & Hp).
  exists assignment. split; [done|].
  destruct (assign_sampled_written _ _ _ _ _ _ _ Hsampled Hkeys Hin)
    as (block' & Hsample' & Hstored).
  rewrite Hsample in Hsample'. inversion Hsample'; subst block'.
  eapply assign_most_connected_keeps; [|eapply assign_fresh_keeps|];
    [| | |exact Hfresh|exact Hconnected]; [lia|lia|done].
Qed.

Lemma from_sample_keeps_sampled_witness :
  exists assignment,
    storing_constructor4 2 [[]; [(0, 1)]] 0.5%float assignment
    = storing_constructor4 2 [[]; [(0, 1)]] 0.5%float [1; 1]
    /\ assignment !! Z.to_nat 0 = Some 1.
Proof.
  apply (from_sample_keeps_sampled storing_constructor4 2 [[]; [(0, 1)]]
           [1] [(0, 0)] 0.5%float _ 0 0 1).
  - reflexivity.
  - vm_compute. apply NoDup_singleton.
  - apply list_elem_of_singleton. reflexivity.
  - reflexivity.
  - lia.
Defined.

Lemma first_max_zeros (n : nat) :
  forall best_index i, first_max best_index 0 i (replicate n 0) = best_index.
Proof.
  induction n as [|n IH]; intros best_index i; cbn [replicate first_max]; [done|].
  rewrite bool_decide_eq_false_2 by lia. apply IH.
Qed.

Lemma maxCoeff_zeros (n : nat) (index : Z) :
  maxCoeff (replicate n 0) = Ok index -> index = 0.
Proof.
  destruct n as [|n]; [done|]. cbn [replicate maxCoeff].
  rewrite first_max_zeros. by intros [= <-].
Qed.

Lemma assign_fresh_numbers (blocks : Z) (count v : nat) (s s' : list Z * Z) :
  blocks + Z.of_nat count < 2 ^ 31 ->
  0 <= blocks ->
  s.2 = blocks ->
  s.1 !! v = Some (-1) ->
  (v < count)%nat ->
  for_range assign_fresh 0 count s = Ok s' ->
  exists b, s'.1 !! v = Some b /\ blocks <= b.
Proof.
  intros Hsmall Hblocks Hnext Hunset Hv Hrun.
  pose (I := fun (i : nat) (t : list Z * Z) =>
               blocks <= t.2 <= blocks + Z.of_nat i
               /\ ((i <= v)%nat -> t.1 !! v = Some (-1))
               /\ ((v < i)%nat -> exists b, t.1 !! v = Some b /\ blocks <= b)).
  assert (I (0 + count)%nat s') as (_ & _ & H); [|by apply H].
  eapply (for_range_indexed I); [| |exact Hrun].
  - intros j t t' Hj (Hbound & Hbefore & Hafter) Hstep.
    apply assign_fresh_Ok in Hstep as (block & Hget & [[Hblock ->]|[Hblock ->]]).
    + split; [lia|]. split; [intros ?; apply Hbefore; lia|].
      intros Hlt. destruct (decide (j = v)) as [->|Hne]; [|apply Hafter; lia].
      rewrite Hbefore in Hget by lia. inversion Hget. lia.
    + unfold int_add. rewrite wrap_small by (unfold in_int_range; lia).
      split; cbn [fst snd]; [lia|]. split.
      * intros Hle. rewrite list_lookup_insert_ne by lia. apply Hbefore. lia.
      * intros Hlt. destruct (decide (j = v)) as [->|Hne].
        -- exists t.2. split; [|lia].
           apply list_lookup_insert_eq. by eapply lookup_lt_Some.
        -- rewrite list_lookup_insert_ne by done. apply Hafter. lia.
  - split; [lia|]. split; [done|lia].
Qed.

(** X13. A vertex that is not sampled and has no outgoing edge ends in block 0:
    its tally is all zeros, and [maxCoeff] reports the first index. *)
Theorem from_sample_isolated_vertex
    (Partition4 : Z -> list Matrix2Column -> float -> Vector -> result Partition)
    (blocks : Z) (neighbors : list Matrix2Column) (sample : Vector)
    (mapping : list (Z * Z)) (rate : float) (p : Partition) (vertex : nat) :
  from_sample Partition4 blocks neighbors sample mapping rate = Ok p ->
  blocks + Z.of_nat (length neighbors) < 2 ^ 31 ->
  neighbors !! vertex = Some [] ->
  (forall item, item ∈ mapping -> item.1 <> Z.of_nat vertex) ->
  exists assignment,
    Partition4 blocks neighbors rate assignment = Ok p
    /\ assignment !! vertex = Some 0.
Proof.
  intros Hrun Hsmall Hisolated Hunsampled.
  apply from_sample_Ok in Hrun
    as (sampled & fresh & assignment & Hblocks & Hsampled & Hfresh & Hconnected & Hp).
  exists assignment. split; [done|].
  pose proof (lookup_lt_Some _ _ _ Hisolated) as Hvertex.
  assert (sampled !! vertex = Some (-1)) as Hunset.
  { pose proof (assign_sampled_untouched _ (Z.of_nat vertex) _ _ _ _
                  Hsampled Hunsampled ltac:(lia)) as Hsame.
    rewrite Nat2Z.id in Hsame. rewrite Hsame. apply lookup_replicate_2.
    assert (length sampled = Z.to_nat blocks) as Hlen.
    { eapply (for_each_invariant (fun v : list Z => length v = Z.to_nat blocks));
        [| |exact Hsampled]; [|apply length_replicate].
      intros i item s s' Hs Hstep.
      by rewrite (assign_sampled_length _ _ _ _ _ Hstep). }
    apply assign_fresh_reads in Hfresh as [Hnone|Hread]; cbn [fst] in *; lia. }
  destruct (assign_fresh_numbers blocks _ vertex (sampled, blocks) _
              Hsmall Hblocks eq_refl Hunset Hvertex Hfresh) as (b & Hb & Hfreshb).
  pose (I := fun (i : nat) (a : list Z) =>
               ((i <= vertex)%nat -> exists b, a !! vertex = Some b /\ blocks <= b)
               /\ ((vertex < i)%nat -> a !! vertex = Some 0)).
  assert (I (0 + length neighbors)%nat assignment) as [_ H]; [|by apply H].
  eapply (for_each_indexed I); [| |exact Hconnected];
    [|split; [by exists b|lia]].
  intros j edges a a' Hedges _ [Hbefore Hafter] Hstep.
  rewrite Nat.sub_0_r in Hedges.
  apply assign_most_connected_Ok in Hstep
    as (block & Hget
        & [[Hblock ->]|[Hblock (counts & new & Htally & Hmax & Hnew & ->)]]).
  - split; [intros ?; apply Hbefore; lia|].
    intros Hlt. destruct (decide (j = vertex)) as [->|Hne]; [|apply Hafter; lia].
    destruct Hbefore as (b' & Hb' & Hfresh'); [lia|].
    rewrite Hb' in Hget. inversion Hget. lia.
  - split.
    + intros Hle. rewrite list_lookup_insert_ne by lia. apply Hbefore. lia.
    + intros Hlt. destruct (decide (j = vertex)) as [->|Hne].
      * rewrite Hisolated in Hedges. inversion Hedges; subst edges.
        cbn in Htally. inversion Htally; subst counts.
        apply maxCoeff_zeros in Hmax as ->.
        apply list_lookup_insert_eq. by eapply lookup_lt_Some.
      * rewrite list_lookup_insert_ne by done. apply Hafter. lia.
Qed.

Lemma from_sample_isolated_vertex_witness :
  exists assignment,
    storing_constructor4 2 [[]; [(0, 1)]] 0.5%float assignment
    = storing_constructor4 2 [[]; [(0, 1)]] 0.5%float [0; 1]
    /\ assignment !! 0%nat = Some 0.
Proof.
  apply (from_sample_isolated_vertex storing_constructor4 2 [[]; [(0, 1)]]
           [1] [(1, 0)]).
  - reflexivity.
  - cbn. lia.
  - reflexivity.
  - intros item ->%list_elem_of_singleton. cbn. lia.
Defined.

(** The example of the specification: two blocks, vertex 0 sampled into
    block 1, vertex 1 with one edge to vertex 0. *)
Example from_sample_spec_example :
  from_sample storing_constructor4 2 [[]; [(0, 1)]] [1] [(0, 0)] 0.5%float
    = storing_constructor4 2 [[]; [(0, 1)]] 0.5%float [1; 1].
Proof. reflexivity. Qed.

(** C6. [from_sample] sizes [block_assignment] by [num_blocks]: with two
    vertices and one block the second loop reads [block_assignment[1]] of a
    vector of length 1, and with one vertex and two blocks the constructor
    receives an assignment of length 2 whose second entry is the sentinel. *)
Theorem from_sample_sized_by_num_blocks
    (Partition4 : Z -> list Matrix2Column -> float -> Vector -> result Partition)
    (rate : float) :
  from_sample Partition4 1 [[]; [(0, 1)]] [0] [(0, 0)] rate
    = Err (OutOfBounds "block_assignment" 1 1)
  /\ from_sample Partition4 2 [[]] [0] [(0, 0)] rate
    = Partition4 2 [[]] rate [0; -1].
Proof. split; reflexivity. Qed.

(** ** [merge_blocks] *)

Lemma relabel_prefix from_block to_block (done_part rest : Vector) :
  foldl (relabel from_block to_block) (done_part ++ rest)
        (seq (length done_part) (length rest))
  = done_part ++ (renamed from_block to_block <$> rest).
Proof.
  revert done_part. induction rest as [|block rest IH]; intros done_part; [done|].
  cbn [length seq foldl fmap list_fmap].
  assert (relabel from_block to_block (done_part ++ block :: rest) (length done_part)
          = (done_part ++ [renamed from_block to_block block]) ++ rest) as ->.
  { unfold relabel, renamed. rewrite list_lookup_middle by done.
    case_bool_decide.
    - rewrite insert_app_r_alt, Nat.sub_diag by done. by rewrite <- app_assoc.
    - by rewrite <- app_assoc. }
  specialize (IH (done_part ++ [renamed from_block to_block block])).
  rewrite length_app in IH; simpl in IH. rewrite Nat.add_1_r in IH.
  rewrite IH. by rewrite <- app_assoc.
Qed.

Lemma relabel_all_fmap from_block to_block (v : Vector) :
  relabel_all from_block to_block v = renamed from_block to_block <$> v.
Proof. apply (relabel_prefix from_block to_block [] v). Qed.

(** C8. [merge_blocks(from, to)] replaces the block of exactly the vertices
    assigned to [from] by [to], every other entry of [block_assignment]
    staying as it is, and changes no other member of the partition. *)
Theorem merge_blocks_relabels (from_block to_block : Z) (this : Partition) :
  block_assignment (merge_blocks from_block to_block this)
    = renamed from_block to_block <$> block_assignment this
  /\ blockmodel (merge_blocks from_block to_block this) = blockmodel this
  /\ block_degrees_out (merge_blocks from_block to_block this) = block_degrees_out this
  /\ block_degrees_in (merge_blocks from_block to_block this) = block_degrees_in this
  /\ block_degrees (merge_blocks from_block to_block this) = block_degrees this
  /\ num_blocks (merge_blocks from_block to_block this) = num_blocks this.
Proof.
  unfold merge_blocks; simpl. by rewrite relabel_all_fmap.
Qed.

(** X14. After [merge_blocks(from, to)] with [from] other than [to], no vertex
    is left in the block [from]. *)
Theorem merge_blocks_empties_source (from_block to_block : Z) (this : Partition) :
  from_block <> to_block ->
  from_block ∉ block_assignment (merge_blocks from_block to_block this).
Proof.
  intros Hne. unfold merge_blocks; cbn. rewrite relabel_all_fmap.
  intros (block & Heq & _)%list_elem_of_fmap. unfold renamed in Heq.
  case_bool_decide; congruence.
Qed.

Lemma merge_blocks_empties_source_witness :
  0 <> 1 /\ 0 ∉ block_assignment (merge_blocks 0 1 alternating).
Proof. split; [lia|]. apply merge_blocks_empties_source. lia. Defined.

(** X15. [merge_blocks] keeps the block ids in range: when every vertex has a
    block in [[0, blocks)] and [to] is one of these blocks, every vertex
    still has a block in [[0, blocks)]. *)
Theorem merge_blocks_keeps_range (blocks from_block to_block : Z) (this : Partition) :
  (forall block, block ∈ block_assignment this -> 0 <= block < blocks) ->
  0 <= to_block < blocks ->
  forall block,
    block ∈ block_assignment (merge_blocks from_block to_block this) ->
    0 <= block < blocks.
Proof.
  intros Hvalid Hto block. unfold merge_blocks; cbn. rewrite relabel_all_fmap.
  intros (old & -> & Hold%Hvalid)%list_elem_of_fmap. unfold renamed.
  by case_bool_decide.
Qed.

Lemma merge_blocks_keeps_range_witness :
  1 ∈ block_assignment (merge_blocks 0 1 alternating) /\ 0 <= 1 < 2.
Proof.
  assert (1 ∈ block_assignment (merge_blocks 0 1 alternating)) as Hin
    by (vm_compute; left).
  split; [exact Hin|].
  apply (merge_blocks_keeps_range 2 0 1 alternating); [|lia|exact Hin].
  intros block Hb. cbn in Hb.
  repeat (apply elem_of_cons in Hb as [->|Hb]; [lia|]).
  by apply elem_of_nil in Hb.
Defined.

(** X16. Two calls in a chain collapse: after [merge_blocks(a, b)] and then
    [merge_blocks(b, c)], the vertices that were in [a] or in [b] are all
    in [c], and every other vertex is where it was. *)
Theorem merge_blocks_chain (a b c : Z) (this : Partition) :
  block_assignment (merge_blocks b c (merge_blocks a b this))
  = (fun block => if bool_decide (block = a \/ block = b) then c else block)
      <$> block_assignment this.
Proof.
  unfold merge_blocks; cbn [block_assignment set_block_assignment].
  rewrite !relabel_all_fmap, <- list_fmap_compose.
  apply list_fmap_ext. intros _ block _. unfold renamed; cbn.
  repeat case_bool_decide; try done; intuition congruence.
Qed.

(** ** [sort_indices] *)

Lemma LinSpaced_one low high : LinSpaced 1 low high = [wrap high].
Proof.
  unfold LinSpaced. cbn [seq fmap list_fmap].
  change (Z.of_nat 1) with 1.
  rewrite !(bool_decide_eq_true_2 (1 = 1)) by done.
  rewrite (bool_decide_eq_false_2 (1 < 1)) by lia.
  cbn [andb]. do 2 f_equal. cbn [Z.of_nat]. lia.
Qed.

Lemma sort_indices_last (unsorted : list float) :
  sort_indices unsorted = Ok [wrap (Z.of_nat (length unsorted) - 1)].
Proof.
  unfold sort_indices. rewrite LinSpaced_one, wrap_wrap. reflexivity.
Qed.

(** C4. The ordering that [carry_out_best_merges] walks has one entry, the
    last block id, whatever the scores: [sort_indices] asks [LinSpaced] for
    one coefficient, not for one per score. *)
Theorem sort_indices_single (unsorted : list float) :
  exists candidates,
    sort_indices unsorted = Ok candidates
    /\ length candidates = 1%nat
    /\ candidates !! 0%nat = Some (wrap (Z.of_nat (length unsorted) - 1)).
Proof.
  eexists. split; [apply sort_indices_last|]. split; reflexivity.
Qed.

(** On two scores the ordering is [[1]], which is not a permutation of the
    block ids [0] and [1]. *)
Example sort_indices_two_scores :
  sort_indices [1%float; 2%float] = Ok [1]
  /\ ~ [1] ≡ₚ [0; 1].
Proof.
  split; [reflexivity|]. intros H%Permutation_length. discriminate.
Qed.

(** ** [carry_out_best_merges] *)

Lemma merge_step_Ok best_merges proposals s s' :
  merge_step best_merges proposals s = Ok s' ->
  0 <= counter s < Z.of_nat (length best_merges)
  /\ counter s' = int_add (counter s) 1
  /\ num_blocks_to_merge (merged s') = num_blocks_to_merge (merged s)
  /\ (num_merged s' = num_merged s \/ num_merged s' = int_add (num_merged s) 1).
Proof.
  unfold merge_step. intros H.
  apply bind_Ok in H as (merge_from & Hfrom & H).
  apply bind_Ok in H as (target & _ & H).
  apply bind_Ok in H as (merge_to & _ & H).
  apply vec_get_Ok in Hfrom as [H0 Hfrom%lookup_lt_Some].
  split; [lia|].
  case_bool_decide; inversion H; subst; cbn; auto.
Qed.

Lemma merge_step_fault best_merges proposals s e :
  merge_step best_merges proposals s = Err e -> e <> OutOfFuel.
Proof.
  unfold merge_step. intros H.
  destruct (vec_get "best_merges" _ _) as [merge_from|e1] eqn:H1;
    [|apply vec_get_fault in H1; cbn in H; by simplify_eq].
  cbn in H.
  destruct (vec_get "best_merge_for_each_block" _ _) as [target|e2] eqn:H2;
    [|apply vec_get_fault in H2; cbn in H; by simplify_eq].
  cbn in H.
  destruct (vec_get "block_map" _ _) as [merge_to|e3] eqn:H3;
    [|apply vec_get_fault in H3; cbn in H; by simplify_eq].
  cbn in H. by case_bool_decide.
Qed.

Lemma merge_loop_fuel best_merges proposals :
  forall (fuel : nat) (s : merge_state),
    in_int_range (counter s) ->
    counter s < 0 \/ Z.of_nat (length best_merges) <= Z.of_nat fuel + counter s ->
    merge_loop fuel best_merges proposals s <> Err OutOfFuel.
Proof.
  induction fuel as [|fuel IH]; intros s Hr Hc; cbn [merge_loop];
    (case_bool_decide; [|done]);
    destruct (merge_step best_merges proposals s) as [s'|e] eqn:Hstep;
    cbn [mbind result_bind];
    try (intros He; inversion He; subst; by eapply merge_step_fault).
  - apply merge_step_Ok in Hstep as (? & _). lia.
  - apply merge_step_Ok in Hstep as (Hin & Hnext & _).
    apply IH.
    + rewrite Hnext. apply wrap_in_range.
    + rewrite Hnext. destruct (int_add_one_next (counter s) Hr) as [->| ?]; lia.
Qed.

Lemma merge_loop_exit best_merges proposals :
  forall (fuel : nat) (s s' : merge_state),
    merge_loop fuel best_merges proposals s = Ok s' ->
    num_blocks_to_merge (merged s') = num_blocks_to_merge (merged s)
    /\ num_blocks_to_merge (merged s) <= num_merged s'.
Proof.
  induction fuel as [|fuel IH]; intros s s' Hrun; cbn [merge_loop] in Hrun;
    (case_bool_decide; [|inversion Hrun; subst; split; [done|lia]]);
    apply bind_Ok in Hrun as (s1 & Hstep & Hrun); [done|].
  apply merge_step_Ok in Hstep as (_ & _ & Hsame & _).
  apply IH in Hrun as [Hsame' Hle]. rewrite Hsame', <- Hsame. split; [done|lia].
Qed.

Lemma compact_blocks_fault this e :
  compact_blocks this = Err e -> e <> OutOfFuel.
Proof.
  unfold compact_blocks. intros H.
  destruct (Constant _ _) as [mapping|e1] eqn:H1.
  2:{ unfold Constant in H1. case_bool_decide; cbn in H; by simplify_eq. }
  cbn [mbind result_bind] in H.
  destruct (for_each number_remaining _ _ _) as [numbered|e2] eqn:H2.
  2:{ cbn in H. inversion H; subst.
      eapply (for_each_fault (fun e => e <> OutOfFuel)); [|exact H2].
      intros i [rem|] s e2 Hbody; unfold number_remaining in Hbody;
        [|by simplify_eq].
      destruct (vec_set _ _ _ _) eqn:Hset; cbn in Hbody; [done|].
      apply vec_set_fault in Hset. by simplify_eq. }
  cbn [mbind result_bind] in H.
  destruct (for_range _ _ _ _) as [assignment|e3] eqn:H3; [done|].
  cbn in H. inversion H; subst.
  eapply (for_range_fault (fun e => e <> OutOfFuel)); [|exact H3].
  intros i s e3 Hbody. unfold rewrite_assignment in Hbody.
  destruct (vec_get "block_assignment" _ _) eqn:G1;
    [|apply vec_get_fault in G1; cbn in Hbody; by simplify_eq].
  cbn in Hbody.
  destruct (vec_get "mapping" _ _) eqn:G2;
    [|apply vec_get_fault in G2; cbn in Hbody; by simplify_eq].
  cbn in Hbody. apply vec_set_fault in Hbody. by simplify_eq.
Qed.

(** The fuel of the loop is enough: [carry_out_best_merges] never runs out
    of it, and a call that returns has left the loop through its test, with
    the merge count at [num_blocks_to_merge] or above. *)
Lemma carry_out_best_merges_fuel_suffices
    (delta_entropy_for_each_block : list float)
    (best_merge_for_each_block : Vector) (this : Partition) :
  match carry_out_best_merges delta_entropy_for_each_block
          best_merge_for_each_block this with
  | Ok after =>
      exists best_merges s,
        sort_indices delta_entropy_for_each_block = Ok best_merges
        /\ merge_loop (length best_merges) best_merges best_merge_for_each_block
             (merge_start this) = Ok s
        /\ num_blocks_to_merge this <= num_merged s
        /\ compact_blocks (merged s) = Ok after
  | Err e => e <> OutOfFuel
  end.
Proof.
  unfold carry_out_best_merges. rewrite sort_indices_last.
  cbn [mbind result_bind].
  set (best_merges := [wrap (Z.of_nat (length delta_entropy_for_each_block) - 1)]).
  destruct (merge_loop (length best_merges) best_merges best_merge_for_each_block
              (merge_start this)) as [s|e] eqn:Hloop; cbn [mbind result_bind].
  - destruct (compact_blocks (merged s)) as [after|e] eqn:Hcompact.
    + exists best_merges, s. repeat (split; [done|]). split; [|done].
      by apply merge_loop_exit in Hloop as [_ Hle].
    + by eapply compact_blocks_fault.
  - intros ->. eapply merge_loop_fuel; [| |exact Hloop].
    + cbn. unfold in_int_range. lia.
    + right. cbn. lia.
Qed.

(** On two blocks with one merge pending and the proposals [0 -> 0],
    [1 -> 0], the single candidate is skipped and the next pass reads
    [best_merges[1]] of a vector of length 1. *)
Example carry_out_best_merges_past_the_end :
  sort_indices [0%float; 0%float] = Ok [1]
  /\ carry_out_best_merges [0%float; 0%float] [0; 0] pair
     = Err (OutOfBounds "best_merges" 1 1).
Proof. split; vm_compute; reflexivity. Qed.

(** C5. The loop tests [num_merged] only, never [counter], and the code has
    no [MergeUnderflow] condition. On a partition of one block whose only
    candidate is the merge of block 0 with itself, with a merge pending,
    the candidates are exhausted after the first pass (the candidate is
    skipped), and the second pass reads [best_merges[1]], one past the end
    of the candidate sequence. *)
Theorem carry_out_best_merges_reads_past_candidates (score : float)
    (this : Partition) :
  num_blocks this = 1 ->
  0 < num_blocks_to_merge this ->
  sort_indices [score] = Ok [0]
  /\ carry_out_best_merges [score] [0] this
     = Err (OutOfBounds "best_merges" 1 1).
Proof.
  intros Hone Hpending.
  assert (sort_indices [score] = Ok [0]) as Hsorted by apply sort_indices_last.
  split; [done|].
  unfold carry_out_best_merges. rewrite Hsorted.
  cbn [mbind result_bind length merge_loop].
  unfold merge_start. rewrite LinSpaced_one, wrap_wrap, Hone.
  change (wrap (1 - 1)) with 0.
  cbn [num_merged merged]. rewrite bool_decide_eq_true_2 by done.
  assert (merge_step [0] [0]
            {| num_merged := 0; counter := 0; block_map := [0]; merged := this |}
          = Ok {| num_merged := 0; counter := 1; block_map := [0]; merged := this |})
    as -> by reflexivity.
  cbn [mbind result_bind num_merged merged].
  rewrite bool_decide_eq_true_2 by done.
  reflexivity.
Qed.

(** One block, two vertices, one merge pending. *)
Lemma carry_out_best_merges_reads_past_candidates_witness :
  sort_indices [0%float] = Ok [0]
  /\ carry_out_best_merges [0%float] [0] (fresh_partition 1 [0; 0] 1)
     = Err (OutOfBounds "best_merges" 1 1).
Proof.
  apply carry_out_best_merges_reads_past_candidates; [reflexivity|cbn; lia].
Defined.

Lemma merge_step_single (last : Z) (proposals : list Z) (this : Partition)
    (s' : merge_state) :
  merge_step [last] proposals
    {| num_merged := 0; counter := 0; block_map := [last]; merged := this |} = Ok s' ->
  s' = {| num_merged := 0; counter := 1; block_map := [last]; merged := this |}.
Proof.
  unfold merge_step. cbn [counter block_map num_merged merged].
  change (vec_get "best_merges" [last] 0) with (Ok (A:=Z) last).
  cbn [mbind result_bind]. intros H.
  apply bind_Ok in H as (target & _ & H).
  apply bind_Ok in H as (merge_to & Hto & H).
  apply vec_get_Ok in Hto as [_ Hto].
  assert (merge_to = last) as ->.
  { destruct (Z.to_nat target); cbn in Hto; [by inversion Hto|done]. }
  rewrite bool_decide_eq_true_2 in H by done. by inversion H.
Qed.

(** X17. When there is one score per block, one pending merge is already one
    too many: the single candidate is the last block and the single entry
    of [block_map] is the last block too, so the candidate faults or is
    skipped, and the next pass finds no candidate. *)
Lemma carry_out_best_merges_merges_nothing
    (delta_entropy_for_each_block : list float)
    (best_merge_for_each_block : Vector) (this : Partition) :
  num_blocks this = Z.of_nat (length delta_entropy_for_each_block) ->
  0 < num_blocks_to_merge this ->
  exists e,
    carry_out_best_merges delta_entropy_for_each_block
      best_merge_for_each_block this = Err e.
Proof.
  intros Hsize Hpending. unfold carry_out_best_merges.
  rewrite sort_indices_last. cbn [mbind result_bind length merge_loop].
  unfold merge_start. rewrite LinSpaced_one, wrap_wrap, Hsize.
  cbn [num_merged merged]. rewrite bool_decide_eq_true_2 by done.
  set (last := wrap (Z.of_nat (length delta_entropy_for_each_block) - 1)).
  destruct (merge_step [last] best_merge_for_each_block _) as [s1|e] eqn:Hstep;
    [|by eexists].
  apply merge_step_single in Hstep as ->.
  cbn [mbind result_bind num_merged merged].
  rewrite bool_decide_eq_true_2 by done.
  by eexists.
Qed.

Lemma merge_step_frame best_merges proposals s s' :
  merge_step best_merges proposals s = Ok s' ->
  num_blocks (merged s') = num_blocks (merged s)
  /\ num_blocks_to_merge (merged s') = num_blocks_to_merge (merged s).
Proof.
  unfold merge_step. intros H.
  apply bind_Ok in H as (merge_from & _ & H).
  apply bind_Ok in H as (target & _ & H).
  apply bind_Ok in H as (merge_to & _ & H).
  case_bool_decide; inversion H; subst; cbn; auto.
Qed.

Lemma merge_loop_frame best_merges proposals :
  forall (fuel : nat) (s s' : merge_state),
    merge_loop fuel best_merges proposals s = Ok s' ->
    num_blocks (merged s') = num_blocks (merged s)
    /\ num_blocks_to_merge (merged s') = num_blocks_to_merge (merged s).
Proof.
  induction fuel as [|fuel IH]; intros s s' Hrun; cbn [merge_loop] in Hrun;
    (case_bool_decide; [|by inversion Hrun]);
    apply bind_Ok in Hrun as (s1 & Hstep & Hrun); [done|].
  apply merge_step_frame in Hstep as [Hb Hp].
  apply IH in Hrun as [Hb' Hp']. by rewrite Hb', Hp', Hb, Hp.
Qed.

(** X18. Whatever the scores and the proposals, a call that returns has merged
    at most one block: there is one candidate. *)
Lemma carry_out_best_merges_at_most_one
    (delta_entropy_for_each_block : list float)
    (best_merge_for_each_block : Vector) (this after : Partition) :
  carry_out_best_merges delta_entropy_for_each_block
    best_merge_for_each_block this = Ok after ->
  num_blocks_to_merge this <= 1.
Proof.
  unfold carry_out_best_merges. rewrite sort_indices_last.
  cbn [mbind result_bind length]. intros H.
  apply bind_Ok in H as (s & Hloop & _).
  cbn [merge_loop] in Hloop. unfold merge_start in Hloop at 1 2.
  cbn [num_merged merged] in Hloop.
  case_bool_decide as Hpending; [|lia].
  apply bind_Ok in Hloop as (s1 & Hstep & Hrest).
  apply merge_step_Ok in Hstep as (_ & _ & Hsame & Hcount).
  cbn [num_merged merged merge_start] in Hsame, Hcount.
  case_bool_decide as Hmore.
  - apply bind_Ok in Hrest as (s2 & _ & Hrest). discriminate.
  - rewrite Hsame in Hmore. change (int_add 0 1) with 1 in Hcount. lia.
Qed.

(** A call that returns has set [num_blocks] to its old value less
    [num_blocks_to_merge]. *)
Lemma carry_out_best_merges_num_blocks
    (delta_entropy_for_each_block : list float)
    (best_merge_for_each_block : Vector) (this after : Partition) :
  carry_out_best_merges delta_entropy_for_each_block
    best_merge_for_each_block this = Ok after ->
  num_blocks after = int_sub (num_blocks this) (num_blocks_to_merge this).
Proof.
  unfold carry_out_best_merges. intros H.
  apply bind_Ok in H as (best_merges & _ & H).
  apply bind_Ok in H as (s & Hloop & Hcompact).
  apply merge_loop_frame in Hloop as [Hblocks Hpending].
  cbn [merged merge_start] in Hblocks, Hpending.
  unfold compact_blocks in Hcompact.
  apply bind_Ok in Hcompact as (mapping & _ & Hcompact).
  apply bind_Ok in Hcompact as (numbered & _ & Hcompact).
  apply bind_Ok in Hcompact as (assignment & _ & Hcompact).
  inversion Hcompact; subst after. cbn. by rewrite Hblocks, Hpending.
Qed.

Lemma carry_out_best_merges_merges_nothing_witness :
  exists e, carry_out_best_merges [0%float; 0%float] [0; 0] pair = Err e.
Proof.
  apply carry_out_best_merges_merges_nothing; [reflexivity | cbn; lia].
Defined.

Lemma carry_out_best_merges_at_most_one_witness :
  num_blocks_to_merge three_blocks <= 1.
Proof.
  apply (carry_out_best_merges_at_most_one [0%float; 0%float] [0; 0] three_blocks
           (set_num_blocks 2 (set_block_assignment [1; 0; 2] three_blocks))).
  vm_compute. reflexivity.
Defined.

Lemma aggregates_kept_trans (p q r : Partition) :
  aggregates_kept p q -> aggregates_kept q r -> aggregates_kept p r.
Proof.
  unfold aggregates_kept. intros (? & ? & ? & ? & ? & ? & ? & ?)
    (? & ? & ? & ? & ? & ? & ? & ?). repeat split; congruence.
Qed.

Lemma merge_step_keeps best_merges proposals s s' :
  merge_step best_merges proposals s = Ok s' ->
  aggregates_kept (merged s) (merged s').
Proof.
  unfold merge_step. intros H.
  apply bind_Ok in H as (merge_from & _ & H).
  apply bind_Ok in H as (target & _ & H).
  apply bind_Ok in H as (merge_to & _ & H).
  case_bool_decide; inversion H; subst; cbn; [done|].
  unfold aggregates_kept, merge_blocks; cbn.
  by rewrite relabel_all_fmap, length_fmap.
Qed.

Lemma merge_loop_keeps best_merges proposals :
  forall (fuel : nat) (s s' : merge_state),
    merge_loop fuel best_merges proposals s = Ok s' ->
    aggregates_kept (merged s) (merged s').
Proof.
  induction fuel as [|fuel IH]; intros s s' Hrun; cbn [merge_loop] in Hrun;
    (case_bool_decide; [|by inversion Hrun]);
    apply bind_Ok in Hrun as (s1 & Hstep & Hrun); [done|].
  eapply aggregates_kept_trans; [by eapply merge_step_keeps | by apply IH].
Qed.

Lemma rewrite_assignment_length mapping i (assignment assignment' : list Z) :
  rewrite_assignment mapping i assignment = Ok assignment' ->
  length assignment' = length assignment.
Proof.
  unfold rewrite_assignment. intros H.
  apply bind_Ok in H as (block & _ & H).
  apply bind_Ok in H as (new_block & _ & H).
  by apply vec_set_length in H.
Qed.

(** X19. [carry_out_best_merges] does not update the aggregates: a call that
    returns leaves the blockmodel, the three degree vectors, the reduction
    rate, the entropy and the pending-merge count as they were, keeps the
    number of vertices, and sets [num_blocks] to its old value less
    [num_blocks_to_merge]. *)
Theorem carry_out_best_merges_frame
    (delta_entropy_for_each_block : list float)
    (best_merge_for_each_block : Vector) (this after : Partition) :
  carry_out_best_merges delta_entropy_for_each_block
    best_merge_for_each_block this = Ok after ->
  aggregates_kept this after
  /\ num_blocks after = int_sub (num_blocks this) (num_blocks_to_merge this).
Proof.
  unfold carry_out_best_merges. intros H.
  apply bind_Ok in H as (best_merges & _ & H).
  apply bind_Ok in H as (s & Hloop & Hcompact).
  pose proof (merge_loop_frame _ _ _ _ _ Hloop) as [Hblocks Hpending].
  apply merge_loop_keeps in Hloop. cbn [merged merge_start] in *.
  unfold compact_blocks in Hcompact.
  apply bind_Ok in Hcompact as (mapping & _ & Hcompact).
  apply bind_Ok in Hcompact as (numbered & _ & Hcompact).
  apply bind_Ok in Hcompact as (assignment & Hrewrite & Hcompact).
  inversion Hcompact; subst after. split; [|cbn; by rewrite Hblocks, Hpending].
  eapply aggregates_kept_trans; [exact Hloop|].
  unfold aggregates_kept; cbn. repeat (split; [done|]).
  eapply (for_range_invariant
            (fun v : list Z => length v = length (block_assignment (merged s))));
    [| |exact Hrewrite]; [|done].
  intros i v v' Hv Hstep. by rewrite (rewrite_assignment_length _ _ _ _ Hstep).
Qed.

Lemma carry_out_best_merges_frame_witness :
  aggregates_kept three_blocks
    (set_num_blocks 2 (set_block_assignment [1; 0; 2] three_blocks))
  /\ num_blocks (set_num_blocks 2 (set_block_assignment [1; 0; 2] three_blocks))
     = int_sub (num_blocks three_blocks) (num_blocks_to_merge three_blocks).
Proof.
  apply (carry_out_best_merges_frame [0%float; 0%float] [0; 0]).
  vm_compute. reflexivity.
Defined.

Lemma std_unique_cons (x y : Z) (rest : list Z) :
  std_unique (x :: y :: rest)
  = if bool_decide (x = y) then std_unique (y :: rest)
    else x :: std_unique (y :: rest).
Proof. reflexivity. Qed.

Lemma std_unique_length (v : list Z) :
  (length (std_unique v) <= length v)%nat
  /\ (v <> [] -> std_unique v <> []).
Proof.
  induction v as [|x [|y rest] IH]; [done|by cbn|].
  rewrite std_unique_cons. destruct IH as [IHlen IHne].
  case_bool_decide; cbn [length] in *.
  - split; [lia|]. intros _. by apply IHne.
  - split; [lia|done].
Qed.

Lemma std_unique_adjacent (v : list Z) (i : nat) (block : Z) :
  v !! i = Some block -> v !! S i = Some block ->
  (length (std_unique v) < length v)%nat.
Proof.
  revert i. induction v as [|x [|y rest] IH]; intros i Hi Hnext; [done..|].
  rewrite std_unique_cons. pose proof (std_unique_length (y :: rest)) as [Hlen _].
  destruct i as [|i].
  - cbn in Hi, Hnext. simplify_eq.
    rewrite bool_decide_eq_true_2 by done. cbn [length] in *. lia.
  - specialize (IH i Hi Hnext).
    case_bool_decide; cbn [length] in *; lia.
Qed.

Lemma std_unique_distinct_neighbours (v : list Z) :
  (forall i a b, v !! i = Some a -> v !! S i = Some b -> a <> b) ->
  std_unique v = v.
Proof.
  induction v as [|x [|y rest] IH]; intros Hdistinct; [done..|].
  rewrite std_unique_cons.
  rewrite bool_decide_eq_false_2 by (by apply (Hdistinct 0%nat)).
  f_equal. apply IH. intros i a b Ha Hb. by apply (Hdistinct (S i)).
Qed.

Lemma merge_loop_nothing_pending fuel best_merges proposals (this : Partition) :
  num_blocks_to_merge this <= 0 ->
  merge_loop fuel best_merges proposals (merge_start this) = Ok (merge_start this).
Proof.
  intros Hnone. destruct fuel; cbn [merge_loop merge_start num_merged merged];
    by rewrite bool_decide_eq_false_2 by lia.
Qed.

(** X20. With no merge pending, a partition in which two vertices next to each
    other share a block is not renumbered: [std::unique] shortens the copy
    of the assignment, [resize] then reallocates it, and the first block id
    read from it is indeterminate. *)
Theorem carry_out_best_merges_adjacent_duplicates
    (delta_entropy_for_each_block : list float)
    (best_merge_for_each_block : Vector) (this : Partition)
    (i : nat) (block : Z) :
  0 <= num_blocks this ->
  num_blocks_to_merge this <= 0 ->
  block_assignment this !! i = Some block ->
  block_assignment this !! S i = Some block ->
  carry_out_best_merges delta_entropy_for_each_block
    best_merge_for_each_block this
  = Err (IndeterminateRead "remaining_blocks" 0).
Proof.
  intros Hblocks Hnone Hi Hnext. unfold carry_out_best_merges.
  rewrite sort_indices_last. cbn [mbind result_bind].
  rewrite merge_loop_nothing_pending by done.
  cbn [mbind result_bind merged merge_start]. unfold compact_blocks.
  pose proof (std_unique_adjacent _ _ _ Hi Hnext) as Hshorter.
  pose proof (std_unique_length (block_assignment this)) as [_ Hne].
  unfold resize. rewrite bool_decide_eq_false_2.
  2:{ rewrite length_app, length_drop. lia. }
  destruct (std_unique (block_assignment this)) as [|kept0 kept] eqn:Hkept.
  { exfalso. apply Hne; [|done]. intros Hnil. by rewrite Hnil in Hi. }
  unfold Constant. rewrite bool_decide_eq_true_2 by done.
  reflexivity.
Qed.

Lemma carry_out_best_merges_adjacent_duplicates_witness :
  carry_out_best_merges [0%float; 0%float] [1; 0] two_vertices
  = Err (IndeterminateRead "remaining_blocks" 0).
Proof.
  apply (carry_out_best_merges_adjacent_duplicates _ _ two_vertices 0 0);
    cbn; (lia || reflexivity).
Defined.

Lemma seqZ_lookup_nat (n : Z) (i : nat) :
  (i < Z.to_nat n)%nat -> seqZ 0 n !! i = Some (Z.of_nat i).
Proof. intros Hi. rewrite lookup_seqZ_lt by lia. f_equal; lia. Qed.

Lemma number_remaining_identity (blocks : Z) :
  0 <= blocks < 2 ^ 31 ->
  forall (count k : nat) (i : nat),
    Z.of_nat k + Z.of_nat count = blocks ->
    for_each number_remaining i (Some <$> seqZ (Z.of_nat k) (Z.of_nat count))
      (seqZ 0 (Z.of_nat k) ++ replicate count (-1), Z.of_nat k)
    = Ok (seqZ 0 blocks, blocks).
Proof.
  intros Hblocks. induction count as [|count IH]; intros k i Hsum.
  - cbn. rewrite app_nil_r. do 3 f_equal; lia.
  - rewrite Nat2Z.inj_succ, seqZ_cons by lia. cbn [fmap list_fmap for_each].
    assert (number_remaining i (Some (Z.of_nat k))
              (seqZ 0 (Z.of_nat k) ++ replicate (S count) (-1), Z.of_nat k)
            = Ok (seqZ 0 (Z.of_nat (S k)) ++ replicate count (-1), Z.of_nat (S k)))
      as ->.
    { unfold number_remaining. cbn [fst snd].
      assert (vec_set "mapping" (seqZ 0 (Z.of_nat k) ++ replicate (S count) (-1))
                (Z.of_nat k) (Z.of_nat k)
              = Ok (seqZ 0 (Z.of_nat (S k)) ++ replicate count (-1))) as ->.
      { apply vec_set_Ok. rewrite length_app, length_seqZ, length_replicate.
        split; [lia|]. rewrite Nat2Z.id.
        rewrite insert_app_r_alt by (rewrite length_seqZ; lia).
        rewrite length_seqZ, Nat2Z.id, Nat.sub_diag.
        cbn [replicate insert list_insert].
        rewrite seqZ_S. cbn [Z.add]. by rewrite <- app_assoc. }
      cbn [mbind result_bind]. do 2 f_equal.
      unfold int_add. rewrite wrap_small; [lia|]. unfold in_int_range. lia. }
    cbn [mbind result_bind].
    replace (Z.succ (Z.of_nat k)) with (Z.of_nat (S k)) by lia.
    replace (Z.pred (Z.succ (Z.of_nat count))) with (Z.of_nat count) by lia.
    apply IH. lia.
Qed.

Lemma rewrite_assignment_identity (blocks : Z) :
  forall (count first : nat),
    Z.of_nat first + Z.of_nat count <= blocks ->
    for_range (rewrite_assignment (seqZ 0 blocks)) first count (seqZ 0 blocks)
    = Ok (seqZ 0 blocks).
Proof.
  induction count as [|count IH]; intros first Hle; [done|].
  cbn [for_range].
  assert (rewrite_assignment (seqZ 0 blocks) first (seqZ 0 blocks)
          = Ok (seqZ 0 blocks)) as ->.
  { assert (seqZ 0 blocks !! first = Some (Z.of_nat first)) as Hlook
      by (apply seqZ_lookup_nat; lia).
    unfold rewrite_assignment.
    assert (vec_get "block_assignment" (seqZ 0 blocks) (Z.of_nat first)
            = Ok (Z.of_nat first)) as ->
      by (apply vec_get_Ok; rewrite Nat2Z.id; split; [lia|done]).
    cbn [mbind result_bind].
    assert (vec_get "mapping" (seqZ 0 blocks) (Z.of_nat first)
            = Ok (Z.of_nat first)) as ->
      by (apply vec_get_Ok; rewrite Nat2Z.id; split; [lia|done]).
    cbn [mbind result_bind]. apply vec_set_Ok. rewrite length_seqZ, Nat2Z.id.
    split; [lia|]. symmetry. by apply list_insert_id. }
  cbn [mbind result_bind]. apply IH. lia.
Qed.

(** X21. With no merge pending, the partition in which every vertex is its own
    block (block [v] for vertex [v]) is renumbered onto itself:
    [carry_out_best_merges] returns it as it is. *)
Theorem carry_out_best_merges_identity
    (delta_entropy_for_each_block : list float)
    (best_merge_for_each_block : Vector) (this : Partition) :
  0 <= num_blocks this < 2 ^ 31 ->
  num_blocks_to_merge this = 0 ->
  block_assignment this = seqZ 0 (num_blocks this) ->
  carry_out_best_merges delta_entropy_for_each_block
    best_merge_for_each_block this
  = Ok this.
Proof.
  intros Hblocks Hnone Hident. unfold carry_out_best_merges.
  rewrite sort_indices_last. cbn [mbind result_bind].
  rewrite merge_loop_nothing_pending by lia.
  cbn [mbind result_bind merged merge_start]. unfold compact_blocks.
  rewrite Hident, std_unique_distinct_neighbours.
  2:{ intros i a b Ha Hb.
      apply lookup_seqZ in Ha as [-> _]. apply lookup_seqZ in Hb as [-> _]. lia. }
  rewrite drop_all, app_nil_r. unfold resize.
  rewrite bool_decide_eq_true_2 by done.
  unfold Constant. rewrite bool_decide_eq_true_2 by lia.
  cbn [mbind result_bind].
  pose proof (number_remaining_identity (num_blocks this) Hblocks
                (Z.to_nat (num_blocks this)) 0 0) as Hnumber.
  rewrite Z2Nat.id in Hnumber by lia. change (Z.of_nat 0) with 0 in Hnumber.
  change (seqZ 0 0) with (@nil Z) in Hnumber. cbn [app] in Hnumber.
  rewrite length_seqZ.
  rewrite Hnumber by lia. cbn [mbind result_bind fst].
  rewrite rewrite_assignment_identity by lia.
  cbn [mbind result_bind]. f_equal.
  rewrite Hnone. unfold int_sub.
  rewrite Z.sub_0_r, wrap_small by (unfold in_int_range; lia).
  rewrite <- Hident. by destruct this.
Qed.

Lemma carry_out_best_merges_identity_witness :
  carry_out_best_merges chain_scores [1; 2; 0] (fresh_partition 3 [0; 1; 2] 0)
  = Ok (fresh_partition 3 [0; 1; 2] 0).
Proof.
  apply carry_out_best_merges_identity; cbn; [lia | reflexivity | reflexivity].
Defined.

(** C3. On three singleton blocks with the proposals [0 -> 1 -> 2] and two
    merges pending, [carry_out_best_merges] faults before any merge: its
    candidate vector and its [block_map] have one entry each. *)
Theorem carry_out_best_merges_chain :
  carry_out_best_merges chain_scores [1; 2; 0] chain
    = Err (OutOfBounds "best_merges" 1 1)
  /\ carry_out_best_merges chain_scores [1; 2; 2] chain
    = Err (OutOfBounds "block_map" 2 1).
Proof. split; vm_compute; reflexivity. Qed.

(** C1. With no merge pending, [carry_out_best_merges] on the assignment
    [[0; 1; 0]] of two blocks returns the assignment [[2; 1; 0]] with
    [num_blocks = 2]: the block id 2 is outside [[0, 2)], and vertex 2 keeps
    its old id. *)
Theorem carry_out_best_merges_alternating :
  exists after,
    carry_out_best_merges [0%float; 0%float] [1; 0] alternating = Ok after
    /\ block_assignment after = [2; 1; 0]
    /\ num_blocks after = 2.
Proof. eexists. repeat split; vm_compute; reflexivity. Qed.
